(** * goshare: the command shell and its IPFS connector

    A shallow embedding of the two Go source files of the repository:
    the package [ipfs] (ipfs_connector.go) and the package [main]
    (the interactive shell), followed by the properties of the
    specification that were checked against them. *)

From Stdlib Require Import String Ascii List Bool NArith ZArith Lia.
From Stdlib Require Import Decimal DecimalString.
Import ListNotations.

Local Open Scope list_scope.
Local Open Scope string_scope.

(** ** Go strings

    A Go string is a sequence of bytes; [string] (a list of [ascii]) is
    used for it, one [ascii] per byte. *)

Definition byte_of (a : ascii) : N := N_of_ascii a.

(** [unicode/utf8]: the constants and the decoder that [range] over a
    string and [strings.FieldsFunc] rely on.  An ill-formed sequence
    decodes to [RuneError] with width 1. *)
Definition RuneError : N := 65533%N.   (* U+FFFD *)
Definition RuneSelf : N := 128%N.

Local Open Scope N_scope.

Definition in_range (lo hi b : N) : bool := (N.leb lo b && N.leb b hi)%bool.

(** continuation bytes are 0x80..0xBF *)
Definition is_cont (b : N) : bool := in_range 128 191 b.

Definition low6 (b : N) : N := N.land b 63.

Definition DecodeRuneInString (s : string) : N * nat :=
  match s with
  | EmptyString => (RuneError, 0%nat)
  | String a0 t =>
      let b0 := byte_of a0 in
      if N.ltb b0 RuneSelf then (b0, 1%nat)
      else if N.ltb b0 194 then (RuneError, 1%nat)          (* 0x80..0xC1 *)
      else if N.ltb b0 224 then                          (* 0xC2..0xDF *)
        match t with
        | String a1 _ =>
            let b1 := byte_of a1 in
            if is_cont b1
            then (N.lor (N.shiftl (N.land b0 31) 6) (low6 b1), 2%nat)
            else (RuneError, 1%nat)
        | _ => (RuneError, 1%nat)
        end
      else if N.ltb b0 240 then                          (* 0xE0..0xEF *)
        match t with
        | String a1 (String a2 _) =>
            let b1 := byte_of a1 in
            let b2 := byte_of a2 in
            let lo := if N.eqb b0 224 then 160 else 128 in
            let hi := if N.eqb b0 237 then 159 else 191 in
            if (in_range lo hi b1 && is_cont b2)%bool
            then (N.lor (N.shiftl (N.land b0 15) 12)
                        (N.lor (N.shiftl (low6 b1) 6) (low6 b2)), 3%nat)
            else (RuneError, 1%nat)
        | _ => (RuneError, 1%nat)
        end
      else if N.ltb b0 245 then                          (* 0xF0..0xF4 *)
        match t with
        | String a1 (String a2 (String a3 _)) =>
            let b1 := byte_of a1 in
            let b2 := byte_of a2 in
            let b3 := byte_of a3 in
            let lo := if N.eqb b0 240 then 144 else 128 in
            let hi := if N.eqb b0 244 then 143 else 191 in
            if (in_range lo hi b1 && is_cont b2 && is_cont b3)%bool
            then (N.lor (N.shiftl (N.land b0 7) 18)
                        (N.lor (N.shiftl (low6 b1) 12)
                               (N.lor (N.shiftl (low6 b2) 6) (low6 b3))), 4%nat)
            else (RuneError, 1%nat)
        | _ => (RuneError, 1%nat)
        end
      else (RuneError, 1%nat)                                (* 0xF5..0xFF *)
  end.

(** [unicode.IsSpace]: the Latin-1 cases are listed in the function, the
    others are the White_Space ranges above U+00FF. *)
Definition IsSpace (r : N) : bool :=
  if N.leb r 255 then
    (in_range 9 13 r || N.eqb r 32 || N.eqb r 133 || N.eqb r 160)%bool
  else
    (N.eqb r 5760 || in_range 8192 8202 r || in_range 8232 8233 r
     || N.eqb r 8239 || N.eqb r 8287 || N.eqb r 12288)%bool.

(** the table [asciiSpace] of package [strings] *)
Definition asciiSpace (a : ascii) : bool :=
  let b := byte_of a in (in_range 9 13 b || N.eqb b 32)%bool.

Local Close Scope N_scope.

Definition is_empty (s : string) : bool :=
  match s with EmptyString => true | _ => false end.

(** closes the field being collected, if there is one *)
Definition emit (cur : string) (rest : list string) : list string :=
  if is_empty cur then rest else cur :: rest.

(** [strings.FieldsFunc]: the string is walked rune by rune; [skip] counts
    the bytes still belonging to the rune decoded last, [keep] tells
    whether that rune is part of a field, and [cur] is the field being
    collected (Go's span from [start] to the current index). *)
Fixpoint FieldsFunc_from (f : N -> bool) (s : string) (skip : nat)
         (keep : bool) (cur : string) : list string :=
  match s with
  | EmptyString => emit cur []
  | String b t =>
      match skip with
      | S k =>
          FieldsFunc_from f t k keep (if keep then cur ++ String b EmptyString else cur)
      | O =>
          let '(r, w) := DecodeRuneInString s in
          if f r
          then emit cur (FieldsFunc_from f t (Nat.pred w) false EmptyString)
          else FieldsFunc_from f t (Nat.pred w) true (cur ++ String b EmptyString)
      end
  end.

Definition FieldsFunc (s : string) (f : N -> bool) : list string :=
  FieldsFunc_from f s 0 false EmptyString.

(** the ASCII fast path of [strings.Fields] *)
Fixpoint fieldsASCII (s : string) (cur : string) : list string :=
  match s with
  | EmptyString => emit cur []
  | String b t =>
      if asciiSpace b
      then emit cur (fieldsASCII t EmptyString)
      else fieldsASCII t (cur ++ String b EmptyString)
  end.

Fixpoint all_bytes (p : ascii -> bool) (s : string) : bool :=
  match s with
  | EmptyString => true
  | String b t => (p b && all_bytes p t)%bool
  end.

(** [strings.Fields]: splits around each run of white space; the result
    is empty when the string holds nothing but white space. *)
Definition Fields (s : string) : list string :=
  if all_bytes (fun b => N.ltb (byte_of b) RuneSelf) s
  then fieldsASCII s EmptyString
  else FieldsFunc s IsSpace.

(** What one types as one argument: a non-empty string of ASCII bytes,
    none of them white space. *)
Definition word_byte (b : ascii) : bool :=
  (N.ltb (byte_of b) RuneSelf && negb (asciiSpace b))%bool.

Definition is_word (s : string) : bool :=
  (negb (is_empty s) && all_bytes word_byte s)%bool.

(** [fmt.Errorf] with a format made of a fixed text and one [%s] verb *)
Definition error : Type := string.

Definition Errorf (prefix : string) (err : error) : error := prefix ++ err.

(** [strings.HasSuffix s "\n"] *)
Fixpoint ends_with_newline (s : string) : bool :=
  match s with
  | EmptyString => false
  | String b EmptyString => Ascii.eqb b "010"%char
  | String _ t => ends_with_newline t
  end.

Definition newline : string := String "010"%char EmptyString.

(** ** What is written to the terminal

    [fmt.Print] and friends write plain text; the helpers of
    [github.com/fatih/color] write a text in a colour.  The output of
    the process is the list of these writes, oldest first. *)
Inductive Colour : Type := Red | Green.

Inductive Output : Type :=
| Plain (text : string)
| Coloured (c : Colour) (text : string).

(** [fmt.Sprintf] for the formats of this repository, whose only verb is
    [%s], applied to strings: each [%s] is replaced by the next operand
    (Go writes [%!s(MISSING)] when there is none left). *)
Fixpoint Sprintf (format : string) (a : list string) : string :=
  match format with
  | EmptyString => EmptyString
  | String "%"%char (String "s"%char t) =>
      match a with
      | x :: a' => x ++ Sprintf t a'
      | [] => "%!s(MISSING)" ++ Sprintf t []
      end
  | String c t => String c (Sprintf t a)
  end.

(** [colorPrint] of package [color], which [color.Red] and [color.Green]
    call: a newline is added to the format unless it ends with one, and
    the format is printed as it is when there are no operands. *)
Definition colorPrint (format : string) (p : Colour) (a : list string) : Output :=
  let format := if ends_with_newline format then format else format ++ newline in
  match a with
  | [] => Coloured p format
  | _ => Coloured p (Sprintf format a)
  end.

(** ** The external collaborators

    Everything the repository calls but does not define: the Go
    standard library's view of the file system, and the kubo and boxo
    packages.  Their state (disk, network, loaded plugins) is [World];
    a call that may touch it takes the world and gives the next one back.
    A Go result pair [(value, err)] is a pair whose second component is
    [None] for a [nil] error.  The calls are taken to return: a panic
    inside a library is outside this embedding. *)
Inductive RoutingOption : Type := DHTOption.

Class Engine : Type := {
  World : Type;
  Context : Type;
  PluginLoader : Type;
  Config : Type;
  Repo : Type;
  IpfsNode : Type;
  CoreAPI : Type;
  Cid : Type;
  ImmutablePath : Type;
  FileInfo : Type;
  files_Node : Type;
  (* the nil pointer and the nil interface value of these two *)
  nil_IpfsNode : IpfsNode;
  nil_Node : files_Node;
  (* context *)
  context_Background : Context;
  context_WithCancel : Context -> Context;
  (* path/filepath, os *)
  filepath_Join : string -> string -> string;
  os_Mkdir : string -> N -> World -> option error * World;
  os_IsExist : error -> bool;
  os_Stat : string -> World -> (FileInfo * option error) * World;
  (* kubo/plugin/loader *)
  loader_NewPluginLoader :
    string -> World -> (PluginLoader * option error) * World;
  PluginLoader_Initialize : PluginLoader -> World -> option error * World;
  PluginLoader_Inject : PluginLoader -> World -> option error * World;
  (* kubo/config, kubo/repo/fsrepo, kubo/core, kubo/core/coreapi *)
  config_Init : N -> World -> (Config * option error) * World;
  fsrepo_Init : string -> Config -> World -> option error * World;
  fsrepo_Open : string -> World -> (Repo * option error) * World;
  core_NewNode :
    Context -> bool -> RoutingOption -> Repo ->
    World -> (IpfsNode * option error) * World;
  coreapi_NewCoreAPI : IpfsNode -> World -> (CoreAPI * option error) * World;
  (* boxo/files, boxo/path, go-cid, the Unixfs API *)
  files_NewSerialFile :
    string -> bool -> FileInfo -> World -> (files_Node * option error) * World;
  files_WriteTo : files_Node -> string -> World -> option error * World;
  cid_Decode : string -> Cid * option error;
  Cid_String : Cid -> string;
  path_FromCid : Cid -> ImmutablePath;
  RootCid : ImmutablePath -> Cid;
  Unixfs_Add :
    CoreAPI -> Context -> files_Node -> World -> (ImmutablePath * option error) * World;
  Unixfs_Get :
    CoreAPI -> Context -> ImmutablePath -> World -> (files_Node * option error) * World
}.

(** ** Package ipfs (src/ipfs/ipfs_connector.go) *)
Module ipfs.
Section WithEngine.
Context {E : Engine}.

Record Connector : Type := {
  Api : CoreAPI;
  Node : IpfsNode;
  RepoPath : string
}.

(** What the functions of the package act on: the outside world, the
    terminal, and the package variable [loadPluginsOnce] (whether its
    [Do] has already been called). *)
Record Global : Type := {
  world : World;
  stdout : list Output;
  loadPluginsOnce : bool
}.

Definition set_world (w : World) (g : Global) : Global :=
  {| world := w; stdout := stdout g; loadPluginsOnce := loadPluginsOnce g |}.

Definition write (o : Output) (g : Global) : Global :=
  {| world := world g; stdout := (stdout g ++ [o])%list;
     loadPluginsOnce := loadPluginsOnce g |}.

Definition set_done (g : Global) : Global :=
  {| world := world g; stdout := stdout g; loadPluginsOnce := true |}.

(** None of these functions panics or exits: a plain state monad. *)
Definition M (A : Type) : Type := Global -> A * Global.

Definition ret {A} (a : A) : M A := fun g => (a, g).

Definition bind {A B} (m : M A) (k : A -> M B) : M B :=
  fun g => let '(a, g') := m g in k a g'.

Notation "x <- m ;; k" := (bind m (fun x => k))
  (at level 61, m at next level, right associativity).
Notation "' pat <- m ;; k" := (bind m (fun x => match x with pat => k end))
  (at level 61, pat pattern, m at next level, right associativity).
Notation "m ;;; k" := (bind m (fun _ => k))
  (at level 61, right associativity).

(** a call into the outside world *)
Definition call {A} (f : World -> A * World) : M A :=
  fun g => let '(a, w) := f (world g) in (a, set_world w g).

Definition color_Green (format : string) (a : list string) : M unit :=
  fun g => (tt, write (colorPrint format Green a) g).

(** [sync.Once.Do] on [loadPluginsOnce]: [f] runs on the first call only,
    and the call counts as done whatever [f] did.  The value is what [f]
    stored in the variable it captured, when it ran. *)
Definition loadPluginsOnce_Do {A} (f : M A) : M (option A) :=
  fun g =>
    if loadPluginsOnce g then (None, g)
    else let '(a, g') := f g in (Some a, set_done g').

Definition loadAndInjectPlugins (externalPluginsPath : string)
  : M (option error) :=
  '(plugins, err) <-
     call (loader_NewPluginLoader (filepath_Join externalPluginsPath "plugins")) ;;
  match err with
  | Some e => ret (Some (Errorf "error loading plugins: " e))
  | None =>
      err <- call (PluginLoader_Initialize plugins) ;;
      match err with
      | Some e => ret (Some (Errorf "error initializing plugins: " e))
      | None =>
          err <- call (PluginLoader_Inject plugins) ;;
          match err with
          | Some e => ret (Some (Errorf "error initializing plugins: " e))
          | None => ret None
          end
      end
  end.

Definition setupPlugins : M (option error) :=
  ran <- loadPluginsOnce_Do (loadAndInjectPlugins EmptyString) ;;
  let onceErr := match ran with Some e => e | None => None end in
  match onceErr with
  | Some e => ret (Some e)
  | None => ret None
  end.

Definition initRepository (repository : string) : M (option error) :=
  err <- call (os_Mkdir repository 511%N) ;;       (* 0777 *)
  let mkdirFailed :=
    match err with
    | Some e => if negb (os_IsExist e) then Some e else None
    | None => None
    end in
  match mkdirFailed with
  | Some e => ret (Some (Errorf "failed to create/get repo dir: " e))
  | None =>
      (* a config with default options and a 2048 bit key *)
      '(cfg, err) <- call (config_Init 2048%N) ;;
      match err with
      | Some e => ret (Some e)
      | None =>
          err <- call (fsrepo_Init repository cfg) ;;
          match err with
          | Some e => ret (Some (Errorf "failed to init ephemeral node: " e))
          | None => ret None
          end
      end
  end.

Definition buildNode (ctx : Context) (repository : string)
  : M (IpfsNode * option error) :=
  '(repo, err) <- call (fsrepo_Open repository) ;;
  match err with
  | Some e => ret (nil_IpfsNode, Some e)
  | None =>
      (* BuildCfg{Online: true, Routing: libp2p.DHTOption, Repo: repo} *)
      '(node, err) <- call (core_NewNode ctx true DHTOption repo) ;;
      ret (node, err)
  end.

(** The result is the pair Go returns: a [*Connector] ([None] for [nil])
    and an error.  On the last line [err] is the [nil] of the test just
    above it. *)
Definition CreateNode (ctx : Context) (repository : string)
  : M (option Connector * option error) :=
  err <- setupPlugins ;;
  match err with
  | Some e => ret (None, Some e)
  | None =>
      err <- initRepository repository ;;
      match err with
      | Some e => ret (None, Some e)
      | None =>
          '(node, err) <- buildNode ctx repository ;;
          match err with
          | Some e => ret (None, Some e)
          | None =>
              '(api, err) <- call (coreapi_NewCoreAPI node) ;;
              match err with
              | Some e => ret (None, Some (Errorf "failed to create ipfs api: " e))
              | None =>
                  ret (Some {| Api := api; Node := node; RepoPath := repository |},
                       err)
              end
          end
      end
  end.

Definition getFsFile (path : string) : M (files_Node * option error) :=
  '(st, err) <- call (os_Stat path) ;;
  match err with
  | Some e => ret (nil_Node, Some e)
  | None =>
      '(f, err) <- call (files_NewSerialFile path false st) ;;
      match err with
      | Some e => ret (nil_Node, Some e)
      | None => ret (f, None)
      end
  end.

Definition AddFile (c : Connector) (ctx : Context) (filePath : string)
  : M (option error) :=
  '(file, err) <- getFsFile filePath ;;
  match err with
  | Some e => ret (Some (Errorf "failed to load file: " e))
  | None =>
      '(fileCid, err) <- call (Unixfs_Add (Api c) ctx file) ;;
      match err with
      | Some e => ret (Some (Errorf "failed to add file: " e))
      | None =>
          color_Green ("Added file with Cid: %s" ++ newline)
                      [Cid_String (RootCid fileCid)] ;;;
          ret err
      end
  end.

(** The error of [cid.Decode] is assigned to the blank identifier. *)
Definition GetFile (c : Connector) (ctx : Context)
           (contentId : string) (outputPath : string) : M (option error) :=
  let '(cidFile, _) := cid_Decode contentId in
  '(file, err) <- call (Unixfs_Get (Api c) ctx (path_FromCid cidFile)) ;;
  match err with
  | Some e => ret (Some e)
  | None =>
      err <- call (files_WriteTo file outputPath) ;;
      match err with
      | Some e => ret (Some e)
      | None =>
          color_Green "Successfully Wrote file to %s" [outputPath] ;;;
          ret err
      end
  end.

End WithEngine.
End ipfs.

(** ** Package main (the shell) *)

(** A run-time panic; the only one this code can raise itself is an
    index out of range, which carries the index and the length. *)
Inductive Panic : Type :=
| IndexOutOfRange (index : nat) (length : nat).

Section Shell.
Context {E : Engine}.

(** [IpfsConnector]: [Connector] is a [*ipfs.Connector], [None] for [nil]. *)
Record IpfsConnector : Type := {
  Connector : option ipfs.Connector
}.

(** The three implementations of the interface [Command].  Each struct
    also has a field [ipfsConnector], a pointer; in this program it always
    points to the one [IpfsConnector] that [main] allocates, which the
    embedding keeps in the [State], so the field is not repeated here. *)
Inductive Command : Type :=
| IpfsConfigCommand (repository : string)
| IpfsAddCommand (filePath : string)
| IpfsGetCommand (cid : string) (outputPath : string).

(** [Invoker]: [command] is an interface value, [None] for [nil]. *)
Record Invoker : Type := {
  command : option Command
}.

(** The two objects [main] allocates and passes around by pointer, and
    what package [ipfs] acts on. *)
Record State : Type := {
  global : ipfs.Global;
  ipfsConnector : IpfsConnector;
  invoker : Invoker
}.

Definition set_global (g : ipfs.Global) (s : State) : State :=
  {| global := g; ipfsConnector := ipfsConnector s; invoker := invoker s |}.

Definition set_ipfsConnector (c : IpfsConnector) (s : State) : State :=
  {| global := global s; ipfsConnector := c; invoker := invoker s |}.

Definition set_invoker (i : Invoker) (s : State) : State :=
  {| global := global s; ipfsConnector := ipfsConnector s; invoker := i |}.

(** How a piece of the shell can end: it returns, it panics, or it ends
    the process with [os.Exit]. *)
Inductive Outcome (A : Type) : Type :=
| Returned (a : A) (s : State)
| Panicked (p : Panic) (s : State)
| Exited (code : Z) (s : State).

Arguments Returned {A} a s.
Arguments Panicked {A} p s.
Arguments Exited {A} code s.

Definition M (A : Type) : Type := State -> Outcome A.

Definition ret {A} (a : A) : M A := fun s => Returned a s.

Definition bind {A B} (m : M A) (k : A -> M B) : M B :=
  fun s =>
    match m s with
    | Returned a s' => k a s'
    | Panicked p s' => Panicked p s'
    | Exited code s' => Exited code s'
    end.

Notation "x <- m ;; k" := (bind m (fun x => k))
  (at level 61, m at next level, right associativity).
Notation "' pat <- m ;; k" := (bind m (fun x => match x with pat => k end))
  (at level 61, pat pattern, m at next level, right associativity).
Notation "m ;;; k" := (bind m (fun _ => k))
  (at level 61, right associativity).

Definition panic {A} (p : Panic) : M A := fun s => Panicked p s.

Definition os_Exit {A} (code : Z) : M A := fun s => Exited code s.

(** a call into package [ipfs] *)
Definition lift {A} (m : ipfs.M A) : M A :=
  fun s => let '(a, g) := m (global s) in Returned a (set_global g s).

(** [l[i]] on a slice *)
Definition index (l : list string) (i : nat) : M string :=
  match nth_error l i with
  | Some x => ret x
  | None => panic (IndexOutOfRange i (length l))
  end.

Definition fmt_Print (text : string) : M unit :=
  fun s => Returned tt (set_global (ipfs.write (Plain text) (global s)) s).

Definition fmt_Println (text : string) : M unit :=
  fmt_Print (text ++ newline).

Definition fmt_Printf (format : string) (a : list string) : M unit :=
  fmt_Print (Sprintf format a).

Definition color_Red (format : string) (a : list string) : M unit :=
  fun s =>
    Returned tt (set_global (ipfs.write (colorPrint format Red a) (global s)) s).

(** reading and writing the two shared objects *)
Definition get_Connector : M (option ipfs.Connector) :=
  fun s => Returned (Connector (ipfsConnector s)) s.

Definition put_Connector (c : option ipfs.Connector) : M unit :=
  fun s => Returned tt (set_ipfsConnector {| Connector := c |} s).

Definition get_command : M (option Command) :=
  fun s => Returned (command (invoker s)) s.

(** [IpfsConfigCommand.Execute] *)
Definition IpfsConfigCommand_Execute (repository : string) (ctx : Context)
  : M (option error) :=
  '(connector, err) <- lift (ipfs.CreateNode ctx repository) ;;
  match err with
  | Some e => ret (Some e)
  | None =>
      put_Connector connector ;;;
      ret None
  end.

(** [IpfsAddCommand.Execute] *)
Definition IpfsAddCommand_Execute (filePath : string) (ctx : Context)
  : M (option error) :=
  c <- get_Connector ;;
  match c with
  | None => ret (Some "run config command first")
  | Some c => lift (ipfs.AddFile c ctx filePath)
  end.

(** [IpfsGetCommand.Execute] *)
Definition IpfsGetCommand_Execute (cid outputPath : string) (ctx : Context)
  : M (option error) :=
  c <- get_Connector ;;
  match c with
  | None => ret (Some "run config command first")
  | Some c => lift (ipfs.GetFile c ctx cid outputPath)
  end.

(** the method [Execute] of the interface, by dynamic type *)
Definition Execute (c : Command) (ctx : Context) : M (option error) :=
  match c with
  | IpfsConfigCommand repository => IpfsConfigCommand_Execute repository ctx
  | IpfsAddCommand filePath => IpfsAddCommand_Execute filePath ctx
  | IpfsGetCommand cid outputPath => IpfsGetCommand_Execute cid outputPath ctx
  end.

(** [Invoker.SetCommand], on the invoker of the [State] *)
Definition SetCommand (c : Command) : M unit :=
  fun s => Returned tt (set_invoker {| command := Some c |} s).

(** [Invoker.ExecuteCommand] *)
Definition ExecuteCommand (ctx : Context) : M (option error) :=
  c <- get_command ;;
  match c with
  | None => ret (Some "command not set")
  | Some c => Execute c ctx
  end.

Definition handleIpfsCommand (command : string) (ctx : Context)
  : M (option error) :=
  let ipfsCommand := Fields command in
  verb <- index ipfsCommand 0 ;;
  if String.eqb verb "config" then
    repository <- index ipfsCommand 1 ;;
    SetCommand (IpfsConfigCommand repository) ;;;
    ExecuteCommand ctx
  else if String.eqb verb "add" then
    c <- get_Connector ;;
    match c with
    | None => ret (Some "run config command first")
    | Some _ =>
        filePath <- index ipfsCommand 1 ;;
        SetCommand (IpfsAddCommand filePath) ;;;
        ExecuteCommand ctx
    end
  else if String.eqb verb "get" then
    c <- get_Connector ;;
    match c with
    | None => ret (Some "run config command first")
    | Some _ =>
        cid <- index ipfsCommand 1 ;;
        outputPath <- index ipfsCommand 2 ;;
        SetCommand (IpfsGetCommand cid outputPath) ;;;
        ExecuteCommand ctx
    end
  else
    fmt_Printf ("invalid command: %s" ++ newline) [command] ;;;
    ret None.

(** The body of the loop of [main] once the line has been read into
    [command]: the [switch]. *)
Definition dispatch (command : string) (ctx : Context) : M unit :=
  if String.eqb command "help" then
    fmt_Println "Available commands:" ;;;
    fmt_Println " - config <repository>" ;;;
    fmt_Println " - add <file-path>" ;;;
    fmt_Println " - get <cid> <output-path>" ;;;
    fmt_Println " - exit"
  else if String.eqb command "exit" then
    fmt_Println "Exiting the app. Goodbye!" ;;;
    os_Exit 0%Z
  else
    err <- handleIpfsCommand command ctx ;;
    match err with
    | Some e => color_Red e []
    | None => ret tt
    end.

(** One turn of the loop: the prompt, then the line. *)
Definition iteration (command : string) (ctx : Context) : M unit :=
  fmt_Print "goshare> " ;;;
  dispatch command ctx.

(** The loop of [main] on the lines the scanner delivers.  When the input
    is exhausted [scanner.Scan] yields false and [scanner.Text] the empty
    string; [handleIpfsCommand] panics on it (lemma
    [iteration_blank_panics] below), so that turn is the last one. *)
Fixpoint loop (stdin : list string) (ctx : Context) : M unit :=
  match stdin with
  | [] => iteration EmptyString ctx
  | line :: rest => iteration line ctx ;;; loop rest ctx
  end.

(** the state in which the loop is entered *)
Definition initial (w : World) : State :=
  {| global := {| ipfs.world := w; ipfs.stdout := [];
                  ipfs.loadPluginsOnce := false |};
     ipfsConnector := {| Connector := None |};
     invoker := {| command := None |} |}.

Definition main (stdin : list string) (w : World) : Outcome unit :=
  let ctx := context_WithCancel context_Background in
  loop stdin ctx (initial w).

(** [ConnectorHandle.isReady] of the specification *)
Definition isReady (s : State) : bool :=
  match Connector (ipfsConnector s) with Some _ => true | None => false end.

(** the state an outcome carries *)
Definition state_of {A} (o : Outcome A) : State :=
  match o with
  | Returned _ s => s
  | Panicked _ s => s
  | Exited _ s => s
  end.

(** the turns of the loop for the lines [lines], without the end of
    input: where the shell stands after them *)
Fixpoint turns (lines : list string) (ctx : Context) : M unit :=
  match lines with
  | [] => ret tt
  | line :: rest => iteration line ctx ;;; turns rest ctx
  end.

(** the state once [o] has been written to the terminal, and once the
    prompt has *)
Definition printed (o : Output) (s : State) : State :=
  set_global (ipfs.write o (global s)) s.

Definition prompted (s : State) : State := printed (Plain "goshare> ") s.

(** [SetCommand] called for each command of [cs] in turn *)
Fixpoint SetCommands (cs : list Command) : M unit :=
  match cs with
  | [] => ret tt
  | c :: cs' => SetCommand c ;;; SetCommands cs'
  end.

(** An invariant of the shell: [m] started in a state where [P] holds
    ends, however it ends, in a state where [P] holds. *)
Definition preserves {A} (P : State -> Prop) (m : M A) : Prop :=
  forall s, P s -> P (state_of (m s)).

(** the same for package [ipfs] and the flag of [loadPluginsOnce] *)
Definition keeps_done {A} (m : ipfs.M A) : Prop :=
  forall g, ipfs.loadPluginsOnce g = true ->
            ipfs.loadPluginsOnce (snd (m g)) = true.

End Shell.

Arguments Returned {E A} a s.
Arguments Panicked {E A} p s.
Arguments Exited {E A} code s.

(** ** A small engine to run the shell on

    A simulated collaborator: directories and files by name, blocks
    numbered from 1 by content identifiers [bafy1], [bafy2], ..., and a
    switch for whether the plugin directory can be loaded.  It stands for
    no property of the real engine; it lets the definitions above be
    evaluated on concrete input. *)
Module Sim.

Record Disk : Type := {
  plugins_ok : bool;
  dirs : list string;
  files : list (string * string);
  blocks : list string
}.

Definition has_dir (d : string) (w : Disk) : bool :=
  existsb (String.eqb d) (dirs w).

Fixpoint lookup (name : string) (l : list (string * string)) : option string :=
  match l with
  | [] => None
  | (n, content) :: l' => if String.eqb n name then Some content else lookup name l'
  end.

Definition mkdir (d : string) (perm : N) (w : Disk) : option error * Disk :=
  if has_dir d w then (Some "file exists", w)
  else (None, {| plugins_ok := plugins_ok w; dirs := d :: dirs w;
                 files := files w; blocks := blocks w |}).

Definition stat (name : string) (w : Disk) : (nat * option error) * Disk :=
  match lookup name (files w) with
  | Some content => ((String.length content, None), w)
  | None => ((0, Some "no such file or directory"), w)
  end.

Definition open_file (name : string) (followSymlinks : bool) (st : nat)
           (w : Disk) : (string * option error) * Disk :=
  match lookup name (files w) with
  | Some content => ((content, None), w)
  | None => ((EmptyString, Some "no such file or directory"), w)
  end.

Definition write_to (content : string) (name : string) (w : Disk)
  : option error * Disk :=
  (None, {| plugins_ok := plugins_ok w; dirs := dirs w;
            files := (name, content) :: files w; blocks := blocks w |}).

Definition new_loader (dir : string) (w : Disk) : (unit * option error) * Disk :=
  if plugins_ok w then ((tt, None), w)
  else ((tt, Some "plugin directory unreadable"), w).

Definition open_repo (d : string) (w : Disk) : (string * option error) * Disk :=
  if has_dir d w then ((d, None), w) else ((EmptyString, Some "no repository"), w).

Definition decode (s : string) : nat * option error :=
  if String.prefix "bafy" s then
    match NilEmpty.uint_of_string (String.substring 4 (String.length s - 4) s) with
    | Some u => (Nat.of_uint u, None)
    | None => (0, Some "invalid cid")
    end
  else (0, Some "invalid cid").

Definition cid_string (n : nat) : string :=
  "bafy" ++ NilEmpty.string_of_uint (Nat.to_uint n).

Definition add_block (api : unit) (ctx : unit) (content : string) (w : Disk)
  : (nat * option error) * Disk :=
  ((S (List.length (blocks w)), None),
   {| plugins_ok := plugins_ok w; dirs := dirs w; files := files w;
      blocks := (blocks w ++ [content])%list |}).

Definition get_block (api : unit) (ctx : unit) (path : nat) (w : Disk)
  : (string * option error) * Disk :=
  match path with
  | O => ((EmptyString, Some "block not found"), w)
  | S k =>
      match nth_error (blocks w) k with
      | Some content => ((content, None), w)
      | None => ((EmptyString, Some "block not found"), w)
      end
  end.

#[local] Instance engine : Engine := {|
  World := Disk;
  Context := unit;
  PluginLoader := unit;
  Config := N;
  Repo := string;
  IpfsNode := string;
  CoreAPI := unit;
  Cid := nat;
  ImmutablePath := nat;
  FileInfo := nat;
  files_Node := string;
  nil_IpfsNode := EmptyString;
  nil_Node := EmptyString;
  context_Background := tt;
  context_WithCancel := fun c => c;
  filepath_Join := fun a b => if is_empty a then b else a ++ "/" ++ b;
  os_Mkdir := mkdir;
  os_IsExist := fun e => String.eqb e "file exists";
  os_Stat := stat;
  loader_NewPluginLoader := new_loader;
  PluginLoader_Initialize := fun _ w => (None, w);
  PluginLoader_Inject := fun _ w => (None, w);
  config_Init := fun bits w => ((bits, None), w);
  fsrepo_Init := fun _ _ w => (None, w);
  fsrepo_Open := open_repo;
  core_NewNode := fun _ _ _ repo w => ((repo, None), w);
  coreapi_NewCoreAPI := fun _ w => ((tt, None), w);
  files_NewSerialFile := open_file;
  files_WriteTo := write_to;
  cid_Decode := decode;
  Cid_String := cid_string;
  path_FromCid := fun c => c;
  RootCid := fun p => p;
  Unixfs_Add := add_block;
  Unixfs_Get := get_block
|}.

(** a machine with one file to publish, and the same with a plugin
    directory that cannot be loaded *)
Definition disk : @World engine :=
  {| plugins_ok := true; dirs := [];
     files := [("./file.txt", "hello")]; blocks := [] |}.

Definition broken_disk : @World engine :=
  {| plugins_ok := false; dirs := [];
     files := [("./file.txt", "hello")]; blocks := [] |}.

(** the context of a run, the state after [config /r] has succeeded on
    [disk], and the connector it holds *)
Definition ctx : @Context engine := tt.

Definition configured : @State engine :=
  state_of (handleIpfsCommand "config /r" ctx (initial disk)).

Definition connector : @ipfs.Connector engine :=
  {| ipfs.Api := tt; ipfs.Node := "/r"; ipfs.RepoPath := "/r" |}.

End Sim.

(** * Properties *)

(** ** Tokenizing *)

Lemma asciiSpace_below_RuneSelf (b : ascii) :
  asciiSpace b = true -> N.ltb (byte_of b) RuneSelf = true.
Proof.
  unfold asciiSpace, in_range, RuneSelf. intros H.
  apply N.ltb_lt.
  apply orb_true_iff in H. destruct H as [H | H].
  - apply andb_true_iff in H. destruct H as [_ H].
    apply N.leb_le in H. lia.
  - apply N.eqb_eq in H. lia.
Qed.

Lemma blank_is_ascii (s : string) :
  all_bytes asciiSpace s = true ->
  all_bytes (fun b => N.ltb (byte_of b) RuneSelf) s = true.
Proof.
  induction s as [| b t IH]; simpl; [reflexivity |].
  intros H. apply andb_true_iff in H. destruct H as [Hb Ht].
  rewrite (asciiSpace_below_RuneSelf b Hb). simpl. exact (IH Ht).
Qed.

Lemma fieldsASCII_blank (s : string) :
  all_bytes asciiSpace s = true -> fieldsASCII s EmptyString = [].
Proof.
  induction s as [| b t IH]; simpl; [reflexivity |].
  intros H. apply andb_true_iff in H. destruct H as [Hb Ht].
  rewrite Hb. simpl. exact (IH Ht).
Qed.

(** A line made of ASCII white space only has no field; the empty line is
    the first case. *)
Lemma Fields_blank (s : string) :
  all_bytes asciiSpace s = true -> Fields s = [].
Proof.
  intros H. unfold Fields.
  rewrite (blank_is_ascii s H). exact (fieldsASCII_blank s H).
Qed.

Lemma Sprintf_invalid_command (line : string) :
  Sprintf ("invalid command: %s" ++ newline) [line]
  = "invalid command: " ++ line ++ newline.
Proof.
  simpl. reflexivity.
Qed.

Section Properties.
Context {E : Engine}.

Notation "x <- m ;; k" := (bind m (fun x => k))
  (at level 61, m at next level, right associativity).
Notation "m ;;; k" := (bind m (fun _ => k))
  (at level 61, right associativity).

(** ** The switch of [main] *)

Lemma dispatch_other (line : string) (ctx : Context) (s : State) :
  line <> "help" -> line <> "exit" ->
  dispatch line ctx s =
  (err <- handleIpfsCommand line ctx ;;
   match err with
   | Some e => color_Red e []
   | None => ret tt
   end) s.
Proof.
  intros Hh He. unfold dispatch.
  apply String.eqb_neq in Hh. apply String.eqb_neq in He.
  rewrite Hh, He. reflexivity.
Qed.

(** A line whose first field is not [help] or [exit] is not one of the
    two directives. *)
Lemma first_field_not_directive (line verb : string) (rest : list string) :
  Fields line = verb :: rest ->
  verb <> "help" -> verb <> "exit" ->
  line <> "help" /\ line <> "exit".
Proof.
  intros HF Hh He. split; intros ->; vm_compute in HF;
    injection HF as Hv _; symmetry in Hv; contradiction.
Qed.

Lemma blank_not_directive (line : string) :
  Fields line = [] -> line <> "help" /\ line <> "exit".
Proof.
  intros HF. split; intros ->; vm_compute in HF; discriminate.
Qed.

(** ** The invoker *)

Lemma ExecuteCommand_pending (c : Command) (ctx : Context) (s : State) :
  command (invoker s) = Some c ->
  ExecuteCommand ctx s = Execute c ctx s.
Proof.
  intros H. unfold ExecuteCommand, bind, get_command. rewrite H. reflexivity.
Qed.

Lemma Set_then_Execute (c : Command) (ctx : Context) (s : State) :
  (SetCommand c ;;; ExecuteCommand ctx) s
  = Execute c ctx (set_invoker {| command := Some c |} s).
Proof.
  unfold bind at 1. unfold SetCommand.
  apply ExecuteCommand_pending. reflexivity.
Qed.

(** C7: with no pending command [ExecuteCommand] returns the error
    "command not set"; it neither panics nor succeeds, and it leaves the
    state as it was. *)
Theorem ExecuteCommand_no_command (ctx : Context) (s : State) :
  command (invoker s) = None ->
  ExecuteCommand ctx s = Returned (Some "command not set") s.
Proof.
  intros H. unfold ExecuteCommand, bind, get_command. rewrite H. reflexivity.
Qed.

Lemma SetCommands_last (cs : list Command) (c : Command) (s : State) :
  SetCommands (cs ++ [c])%list s
  = Returned tt (set_invoker {| command := Some c |} s).
Proof.
  revert s. induction cs as [| c0 cs IH]; intros s; simpl.
  - reflexivity.
  - unfold bind. unfold SetCommand at 1. rewrite IH. reflexivity.
Qed.

(** C9: after any sequence of [SetCommand] calls, [ExecuteCommand] runs the
    command of the last call, on an invoker that holds that command and
    nothing else: the earlier commands have no effect on the outcome. *)
Theorem ExecuteCommand_runs_last_set
        (cs : list Command) (c : Command) (ctx : Context) (s : State) :
  (SetCommands (cs ++ [c])%list ;;; ExecuteCommand ctx) s
  = Execute c ctx (set_invoker {| command := Some c |} s).
Proof.
  unfold bind at 1. rewrite SetCommands_last.
  apply ExecuteCommand_pending. reflexivity.
Qed.

(** ** Lines that are not commands *)

Lemma handleIpfsCommand_unrecognized
      (line verb : string) (rest : list string) (ctx : Context) (s : State) :
  Fields line = verb :: rest ->
  verb <> "config" -> verb <> "add" -> verb <> "get" ->
  handleIpfsCommand line ctx s
  = Returned None (printed (Plain ("invalid command: " ++ line ++ newline)) s).
Proof.
  intros HF Hc Ha Hg. unfold handleIpfsCommand. rewrite HF.
  apply String.eqb_neq in Hc. apply String.eqb_neq in Ha.
  apply String.eqb_neq in Hg.
  unfold bind at 1. unfold index at 1. cbn [nth_error]. unfold ret at 1.
  rewrite Hc, Ha, Hg.
  unfold bind, fmt_Printf. rewrite Sprintf_invalid_command. reflexivity.
Qed.

(** C8: a line with a first field that is none of [config], [add], [get],
    and that is not the directive [help] or [exit], makes the turn of the
    loop print "invalid command: " followed by the line as typed, in plain
    text and not as an error; the connector and the invoker are the ones
    of before. *)
Theorem unrecognized_verb_is_reported
        (line verb : string) (rest : list string) (ctx : Context) (s : State) :
  Fields line = verb :: rest ->
  verb <> "config" -> verb <> "add" -> verb <> "get" ->
  line <> "help" -> line <> "exit" ->
  handleIpfsCommand line ctx s
  = Returned None (printed (Plain ("invalid command: " ++ line ++ newline)) s)
  /\ iteration line ctx s
     = Returned tt
         (printed (Plain ("invalid command: " ++ line ++ newline)) (prompted s))
  /\ ipfsConnector (state_of (iteration line ctx s)) = ipfsConnector s
  /\ invoker (state_of (iteration line ctx s)) = invoker s.
Proof.
  intros HF Hc Ha Hg Hh He.
  assert (Hit : iteration line ctx s
                = Returned tt
                    (printed (Plain ("invalid command: " ++ line ++ newline))
                             (prompted s))).
  { unfold iteration. unfold bind at 1. unfold fmt_Print at 1.
    fold (printed (Plain "goshare> ") s). fold (prompted s).
    rewrite (dispatch_other line ctx (prompted s) Hh He).
    unfold bind at 1.
    rewrite (handleIpfsCommand_unrecognized line verb rest ctx _ HF Hc Ha Hg).
    reflexivity. }
  split; [| split; [exact Hit | rewrite Hit; split; reflexivity]].
  exact (handleIpfsCommand_unrecognized line verb rest ctx s HF Hc Ha Hg).
Qed.

(** ** Commands before configuration *)

Lemma iteration_prompt (line : string) (ctx : Context) (s : State) :
  iteration line ctx s = dispatch line ctx (prompted s).
Proof.
  reflexivity.
Qed.

Lemma handleIpfsCommand_not_configured
      (line verb : string) (rest : list string) (ctx : Context) (s : State) :
  Fields line = verb :: rest ->
  verb = "add" \/ verb = "get" ->
  Connector (ipfsConnector s) = None ->
  handleIpfsCommand line ctx s = Returned (Some "run config command first") s.
Proof.
  intros HF Hv Hn. unfold handleIpfsCommand. rewrite HF.
  unfold bind at 1. unfold index at 1. cbn [nth_error]. unfold ret at 1.
  destruct Hv as [-> | ->]; cbn [String.eqb Ascii.eqb Bool.eqb];
    unfold bind at 1; unfold get_Connector at 1; rewrite Hn; reflexivity.
Qed.

(** C4: while the connector is not set, a line whose first field is [add]
    or [get] gets the error "run config command first": the dispatcher
    returns it before it indexes the arguments or builds a command (the
    whole state, invoker included, is the one of before), the loop prints
    it as an error and goes on, and the [Execute] of both commands answers
    the same way. *)
Theorem add_get_before_config
        (line verb : string) (rest : list string) (ctx : Context) (s : State) :
  Fields line = verb :: rest ->
  verb = "add" \/ verb = "get" ->
  Connector (ipfsConnector s) = None ->
  handleIpfsCommand line ctx s = Returned (Some "run config command first") s
  /\ iteration line ctx s
     = Returned tt
         (printed (Coloured Red ("run config command first" ++ newline))
                  (prompted s))
  /\ (forall filePath,
         Execute (IpfsAddCommand filePath) ctx s
         = Returned (Some "run config command first") s)
  /\ (forall cid outputPath,
         Execute (IpfsGetCommand cid outputPath) ctx s
         = Returned (Some "run config command first") s).
Proof.
  intros HF Hv Hn.
  split; [exact (handleIpfsCommand_not_configured line verb rest ctx s HF Hv Hn) |].
  split.
  - assert (Hd : line <> "help" /\ line <> "exit").
    { apply (first_field_not_directive line verb rest HF);
        destruct Hv as [-> | ->]; discriminate. }
    destruct Hd as [Hh He].
    rewrite iteration_prompt, (dispatch_other line ctx _ Hh He).
    unfold bind at 1.
    rewrite (handleIpfsCommand_not_configured line verb rest ctx (prompted s)
               HF Hv Hn).
    reflexivity.
  - split; intros; simpl;
      [unfold IpfsAddCommand_Execute | unfold IpfsGetCommand_Execute];
      unfold bind, get_Connector; rewrite Hn; reflexivity.
Qed.

(** ** Lines the dispatcher cannot index *)

Lemma handleIpfsCommand_no_field (line : string) (ctx : Context) (s : State) :
  Fields line = [] ->
  handleIpfsCommand line ctx s = Panicked (IndexOutOfRange 0 0) s.
Proof.
  intros HF. unfold handleIpfsCommand. rewrite HF. reflexivity.
Qed.

Lemma iteration_no_field (line : string) (ctx : Context) (s : State) :
  Fields line = [] ->
  iteration line ctx s = Panicked (IndexOutOfRange 0 0) (prompted s).
Proof.
  intros HF. destruct (blank_not_directive line HF) as [Hh He].
  rewrite iteration_prompt, (dispatch_other line ctx _ Hh He).
  unfold bind. rewrite (handleIpfsCommand_no_field line ctx _ HF). reflexivity.
Qed.

(** the turn taken at the end of the input *)
Lemma iteration_blank_panics (ctx : Context) (s : State) :
  iteration EmptyString ctx s = Panicked (IndexOutOfRange 0 0) (prompted s).
Proof.
  apply iteration_no_field. reflexivity.
Qed.

(** C2, as the code behaves: on a line that is empty or made of white
    space only, [ipfsCommand[0]] is out of range; the turn of the loop ends
    in a panic instead of going back to the prompt. *)
Theorem blank_line_panics (line : string) (ctx : Context) (s : State) :
  all_bytes asciiSpace line = true ->
  iteration line ctx s = Panicked (IndexOutOfRange 0 0) (prompted s).
Proof.
  intros H. apply iteration_no_field. exact (Fields_blank line H).
Qed.

Lemma handleIpfsCommand_config_alone
      (line : string) (ctx : Context) (s : State) :
  Fields line = ["config"] ->
  handleIpfsCommand line ctx s = Panicked (IndexOutOfRange 1 1) s.
Proof.
  intros HF. unfold handleIpfsCommand. rewrite HF. reflexivity.
Qed.

Lemma iteration_config_alone (line : string) (ctx : Context) (s : State) :
  Fields line = ["config"] ->
  iteration line ctx s = Panicked (IndexOutOfRange 1 1) (prompted s).
Proof.
  intros HF.
  assert (Hd : line <> "help" /\ line <> "exit").
  { apply (first_field_not_directive line "config" [] HF); discriminate. }
  destruct Hd as [Hh He].
  rewrite iteration_prompt, (dispatch_other line ctx _ Hh He).
  unfold bind. rewrite (handleIpfsCommand_config_alone line ctx _ HF).
  reflexivity.
Qed.

(** C1, as the code behaves: on a line that holds the verb [config] and no
    argument, [ipfsCommand[1]] is out of range; the dispatcher panics, and
    so does the turn of the loop: no error is reported and the loop does
    not go on. *)
Theorem config_without_argument_panics
        (line : string) (ctx : Context) (s : State) :
  Fields line = ["config"] ->
  handleIpfsCommand line ctx s = Panicked (IndexOutOfRange 1 1) s
  /\ iteration line ctx s = Panicked (IndexOutOfRange 1 1) (prompted s).
Proof.
  intros HF. split.
  - exact (handleIpfsCommand_config_alone line ctx s HF).
  - exact (iteration_config_alone line ctx s HF).
Qed.

(** The same happens for [add] and [get] once the connector is set. *)
Lemma add_get_without_argument_panic
      (line : string) (ctx : Context) (s : State) :
  isReady s = true ->
  (Fields line = ["add"] ->
   handleIpfsCommand line ctx s = Panicked (IndexOutOfRange 1 1) s)
  /\ (Fields line = ["get"] ->
      handleIpfsCommand line ctx s = Panicked (IndexOutOfRange 1 1) s)
  /\ (forall cid, Fields line = ["get"; cid] ->
      handleIpfsCommand line ctx s = Panicked (IndexOutOfRange 2 2) s).
Proof.
  unfold isReady. intros Hr.
  destruct (Connector (ipfsConnector s)) as [c |] eqn:Hc; [| discriminate].
  repeat split; intros; unfold handleIpfsCommand; rewrite H;
    unfold bind at 1; unfold index at 1; cbn [nth_error]; unfold ret at 1;
    cbn [String.eqb Ascii.eqb Bool.eqb];
    unfold bind at 1; unfold get_Connector at 1; rewrite Hc; reflexivity.
Qed.

(** ** Package ipfs: the plugin flag and the result of CreateNode *)

Lemma keeps_done_ret {A} (a : A) : keeps_done (ipfs.ret a).
Proof.
  intros g H. exact H.
Qed.

Lemma keeps_done_bind {A B} (m : ipfs.M A) (k : A -> ipfs.M B) :
  keeps_done m -> (forall a, keeps_done (k a)) -> keeps_done (ipfs.bind m k).
Proof.
  intros Hm Hk g H. unfold ipfs.bind.
  specialize (Hm g H). destruct (m g) as [a g1]. exact (Hk a g1 Hm).
Qed.

Lemma keeps_done_call {A} (f : World -> A * World) : keeps_done (ipfs.call f).
Proof.
  intros g H. unfold ipfs.call. destruct (f (ipfs.world g)). exact H.
Qed.

Lemma keeps_done_Green (format : string) (a : list string) :
  keeps_done (ipfs.color_Green format a).
Proof.
  intros g H. exact H.
Qed.

Lemma keeps_done_Do {A} (f : ipfs.M A) : keeps_done (ipfs.loadPluginsOnce_Do f).
Proof.
  intros g H. unfold ipfs.loadPluginsOnce_Do. rewrite H. exact H.
Qed.

(** splits a goal [keeps_done m] along the shape of [m] *)
Ltac keeps_done_step :=
  first
    [ apply keeps_done_ret
    | apply keeps_done_call
    | apply keeps_done_Green
    | apply keeps_done_Do
    | apply keeps_done_bind; [| intros ?]
    | match goal with
      | |- keeps_done (match ?x with _ => _ end) => destruct x
      | |- keeps_done (let '(_, _) := ?x in _) => destruct x
      end ].

Lemma keeps_done_CreateNode (ctx : Context) (repository : string) :
  keeps_done (ipfs.CreateNode ctx repository).
Proof.
  unfold ipfs.CreateNode, ipfs.setupPlugins, ipfs.initRepository,
    ipfs.buildNode.
  repeat keeps_done_step.
Qed.

Lemma keeps_done_AddFile (c : ipfs.Connector) (ctx : Context) (p : string) :
  keeps_done (ipfs.AddFile c ctx p).
Proof.
  unfold ipfs.AddFile, ipfs.getFsFile. repeat keeps_done_step.
Qed.

Lemma keeps_done_GetFile (c : ipfs.Connector) (ctx : Context) (i o : string) :
  keeps_done (ipfs.GetFile c ctx i o).
Proof.
  unfold ipfs.GetFile. repeat keeps_done_step.
Qed.

(** Once [Do] has been called, [setupPlugins] gives [nil] and touches
    nothing: [loadAndInjectPlugins] is not called again. *)
Lemma setupPlugins_done (g : ipfs.Global) :
  ipfs.loadPluginsOnce g = true -> ipfs.setupPlugins g = (None, g).
Proof.
  intros H. unfold ipfs.setupPlugins, ipfs.bind, ipfs.loadPluginsOnce_Do.
  rewrite H. reflexivity.
Qed.

Lemma setupPlugins_first (g : ipfs.Global) :
  ipfs.loadPluginsOnce g = false ->
  ipfs.setupPlugins g
  = (fst (ipfs.loadAndInjectPlugins EmptyString g),
     ipfs.set_done (snd (ipfs.loadAndInjectPlugins EmptyString g))).
Proof.
  intros H. unfold ipfs.setupPlugins, ipfs.bind, ipfs.loadPluginsOnce_Do.
  rewrite H. destruct (ipfs.loadAndInjectPlugins EmptyString g) as [[e |] g1];
    reflexivity.
Qed.

(** [CreateNode] gives a connector exactly when it gives no error. *)
Lemma CreateNode_result (ctx : Context) (repository : string) (g : ipfs.Global) :
  match fst (ipfs.CreateNode ctx repository g) with
  | (Some _, None) | (None, Some _) => True
  | _ => False
  end.
Proof.
  unfold ipfs.CreateNode, ipfs.bind, ipfs.ret.
  repeat match goal with
         | |- context [match ?x with _ => _ end] =>
             lazymatch x with
             | fst _ => fail
             | _ => destruct x; simpl
             end
         end; exact I.
Qed.

(** ** Invariants of the shell *)

Lemma lift_Returned {A} (m : ipfs.M A) (s : State) :
  lift m s = Returned (fst (m (global s))) (set_global (snd (m (global s))) s).
Proof.
  unfold lift. destruct (m (global s)). reflexivity.
Qed.

Lemma preserves_ret {A} (P : State -> Prop) (a : A) : preserves P (ret a).
Proof.
  intros s H. exact H.
Qed.

Lemma preserves_panic {A} (P : State -> Prop) (p : Panic) :
  preserves P (@panic E A p).
Proof.
  intros s H. exact H.
Qed.

Lemma preserves_os_Exit {A} (P : State -> Prop) (code : Z) :
  preserves P (@os_Exit E A code).
Proof.
  intros s H. exact H.
Qed.

Lemma preserves_bind {A B} (P : State -> Prop) (m : M A) (k : A -> M B) :
  preserves P m -> (forall a, preserves P (k a)) -> preserves P (bind m k).
Proof.
  intros Hm Hk s H. unfold bind. specialize (Hm s H).
  destruct (m s) as [a s1 | p s1 | code s1]; simpl in *.
  - exact (Hk a s1 Hm).
  - exact Hm.
  - exact Hm.
Qed.

Lemma preserves_index (P : State -> Prop) (l : list string) (i : nat) :
  preserves P (index l i).
Proof.
  unfold index. destruct (nth_error l i).
  - apply preserves_ret.
  - apply preserves_panic.
Qed.

Lemma preserves_get_Connector (P : State -> Prop) : preserves P get_Connector.
Proof.
  intros s H. exact H.
Qed.

Lemma preserves_get_command (P : State -> Prop) : preserves P get_command.
Proof.
  intros s H. exact H.
Qed.

(** What the loop does around [Execute] keeps any property that does not
    depend on the terminal or on the invoker and that every command keeps. *)
Section Invariant.

Variable P : State -> Prop.
Hypothesis P_printed : forall o s, P s -> P (printed o s).
Hypothesis P_set_invoker : forall i s, P s -> P (set_invoker i s).
Hypothesis P_Execute : forall c ctx, preserves P (Execute c ctx).

Lemma preserves_fmt_Print (text : string) : preserves P (fmt_Print text).
Proof.
  intros s H. exact (P_printed (Plain text) s H).
Qed.

Lemma preserves_fmt_Println (text : string) : preserves P (fmt_Println text).
Proof.
  apply preserves_fmt_Print.
Qed.

Lemma preserves_fmt_Printf (format : string) (a : list string) :
  preserves P (fmt_Printf format a).
Proof.
  apply preserves_fmt_Print.
Qed.

Lemma preserves_color_Red (format : string) (a : list string) :
  preserves P (color_Red format a).
Proof.
  intros s H. exact (P_printed (colorPrint format Red a) s H).
Qed.

Lemma preserves_SetCommand (c : Command) : preserves P (SetCommand c).
Proof.
  intros s H. exact (P_set_invoker _ s H).
Qed.

Lemma preserves_ExecuteCommand (ctx : Context) :
  preserves P (ExecuteCommand ctx).
Proof.
  unfold ExecuteCommand. apply preserves_bind.
  - apply preserves_get_command.
  - intros [c |]; [apply P_Execute | apply preserves_ret].
Qed.

(** splits a goal [preserves P m] along the shape of [m] *)
Ltac preserves_step :=
  first
    [ apply preserves_ret
    | apply preserves_index
    | apply preserves_get_Connector
    | apply preserves_SetCommand
    | apply preserves_ExecuteCommand
    | apply preserves_fmt_Print
    | apply preserves_fmt_Println
    | apply preserves_fmt_Printf
    | apply preserves_color_Red
    | apply preserves_os_Exit
    | apply preserves_bind; [| intros ?]
    | match goal with
      | |- preserves _ (if ?b then _ else _) => destruct b
      | |- preserves _ (match ?x with _ => _ end) => destruct x
      end ].

Lemma preserves_handleIpfsCommand (line : string) (ctx : Context) :
  preserves P (handleIpfsCommand line ctx).
Proof.
  unfold handleIpfsCommand. repeat preserves_step.
Qed.

Lemma preserves_iteration (line : string) (ctx : Context) :
  preserves P (iteration line ctx).
Proof.
  unfold iteration, dispatch.
  repeat first [apply preserves_handleIpfsCommand | preserves_step].
Qed.

Lemma preserves_turns (lines : list string) (ctx : Context) :
  preserves P (turns lines ctx).
Proof.
  induction lines as [| line rest IH]; simpl.
  - apply preserves_ret.
  - apply preserves_bind; [apply preserves_iteration | intros _; exact IH].
Qed.

Lemma preserves_loop (stdin : list string) (ctx : Context) :
  preserves P (loop stdin ctx).
Proof.
  induction stdin as [| line rest IH]; simpl.
  - apply preserves_iteration.
  - apply preserves_bind; [apply preserves_iteration | intros _; exact IH].
Qed.

End Invariant.

(** ** The connector *)

Lemma IpfsConfigCommand_Execute_eq (repository : string) (ctx : Context) (s : State) :
  IpfsConfigCommand_Execute repository ctx s
  = match ipfs.CreateNode ctx repository (global s) with
    | ((_, Some e), g) => Returned (Some e) (set_global g s)
    | ((connector, None), g) =>
        Returned None
          (set_ipfsConnector {| Connector := connector |} (set_global g s))
    end.
Proof.
  unfold IpfsConfigCommand_Execute, bind. rewrite lift_Returned.
  destruct (ipfs.CreateNode ctx repository (global s)) as [[c [e |]] g];
    reflexivity.
Qed.

Lemma Execute_returns (c : Command) (ctx : Context) (s : State) :
  exists r s', Execute c ctx s = Returned r s' /\ invoker s' = invoker s.
Proof.
  destruct c as [repository | filePath | cid outputPath]; simpl.
  - rewrite IpfsConfigCommand_Execute_eq.
    destruct (ipfs.CreateNode ctx repository (global s)) as [[c [e |]] g];
      eexists; eexists; split; reflexivity.
  - unfold IpfsAddCommand_Execute, bind, get_Connector.
    destruct (Connector (ipfsConnector s)) as [c |].
    + rewrite lift_Returned. eexists; eexists; split; reflexivity.
    + eexists; eexists; split; reflexivity.
  - unfold IpfsGetCommand_Execute, bind, get_Connector.
    destruct (Connector (ipfsConnector s)) as [c |].
    + rewrite lift_Returned. eexists; eexists; split; reflexivity.
    + eexists; eexists; split; reflexivity.
Qed.

(** [add] and [get] leave the connector alone. *)
Lemma Execute_add_get_frame (c : Command) (ctx : Context) (s : State) :
  (forall repository, c <> IpfsConfigCommand repository) ->
  ipfsConnector (state_of (Execute c ctx s)) = ipfsConnector s.
Proof.
  intros Hc. destruct c as [repository | filePath | cid outputPath]; simpl.
  - exfalso. exact (Hc repository eq_refl).
  - unfold IpfsAddCommand_Execute, bind, get_Connector.
    destruct (Connector (ipfsConnector s)) as [c |]; [| reflexivity].
    rewrite lift_Returned. reflexivity.
  - unfold IpfsGetCommand_Execute, bind, get_Connector.
    destruct (Connector (ipfsConnector s)) as [c |]; [| reflexivity].
    rewrite lift_Returned. reflexivity.
Qed.

Lemma Execute_keeps_ready (c : Command) (ctx : Context) :
  preserves (fun s => isReady s = true) (Execute c ctx).
Proof.
  intros s H. destruct c as [repository | filePath | cid outputPath].
  - simpl Execute. rewrite IpfsConfigCommand_Execute_eq.
    pose proof (CreateNode_result ctx repository (global s)) as Hr.
    destruct (ipfs.CreateNode ctx repository (global s)) as [[[c |] [e |]] g];
      simpl in Hr; try contradiction.
    + reflexivity.
    + exact H.
  - unfold isReady.
    rewrite (Execute_add_get_frame (IpfsAddCommand filePath) ctx s);
      [exact H | intros r; discriminate].
  - unfold isReady.
    rewrite (Execute_add_get_frame (IpfsGetCommand cid outputPath) ctx s);
      [exact H | intros r; discriminate].
Qed.

Lemma config_success_sets_ready
      (line repository : string) (rest : list string) (ctx : Context)
      (s s' : State) :
  Fields line = "config" :: repository :: rest ->
  handleIpfsCommand line ctx s = Returned None s' ->
  isReady s' = true.
Proof.
  intros HF. unfold handleIpfsCommand. rewrite HF.
  unfold bind at 1. unfold index at 1. cbn [nth_error]. unfold ret at 1.
  cbn [String.eqb Ascii.eqb Bool.eqb].
  unfold bind at 1. unfold index at 1. cbn [nth_error]. unfold ret at 1.
  rewrite Set_then_Execute. simpl Execute.
  rewrite IpfsConfigCommand_Execute_eq. cbn [set_invoker global].
  pose proof (CreateNode_result ctx repository (global s)) as Hr.
  destruct (ipfs.CreateNode ctx repository (global s)) as [[[c |] [e |]] g];
    simpl in Hr; try contradiction.
  - intros H. injection H as <-. reflexivity.
  - intros H. discriminate.
Qed.

(** C5: a [config] line that succeeds leaves the connector set, and from a
    state where the connector is set every state the loop goes through,
    whatever the lines are (a failed or repeated [config], [add], [get],
    anything else) and however the last turn ends, has the connector set. *)
Theorem ready_is_permanent (ctx : Context) (s : State) :
  (forall line repository rest s',
      Fields line = "config" :: repository :: rest ->
      handleIpfsCommand line ctx s = Returned None s' ->
      isReady s' = true)
  /\ (isReady s = true ->
      forall lines, isReady (state_of (turns lines ctx s)) = true).
Proof.
  split.
  - intros line repository rest s' HF H.
    exact (config_success_sets_ready line repository rest ctx s s' HF H).
  - intros H lines.
    apply (preserves_turns (fun s => isReady s = true)); try exact H.
    + intros o s0 H0. exact H0.
    + intros i s0 H0. exact H0.
    + exact Execute_keeps_ready.
Qed.

(** What the dispatcher does on a well-formed line. *)
Lemma handleIpfsCommand_config
      (line repository : string) (rest : list string) (ctx : Context)
      (s : State) :
  Fields line = "config" :: repository :: rest ->
  handleIpfsCommand line ctx s
  = Execute (IpfsConfigCommand repository) ctx
      (set_invoker {| command := Some (IpfsConfigCommand repository) |} s).
Proof.
  intros HF. unfold handleIpfsCommand. rewrite HF.
  unfold bind at 1. unfold index at 1. cbn [nth_error]. unfold ret at 1.
  cbn [String.eqb Ascii.eqb Bool.eqb].
  unfold bind at 1. unfold index at 1. cbn [nth_error]. unfold ret at 1.
  apply Set_then_Execute.
Qed.

Lemma handleIpfsCommand_add
      (line filePath : string) (rest : list string) (ctx : Context)
      (s : State) :
  Fields line = "add" :: filePath :: rest ->
  isReady s = true ->
  handleIpfsCommand line ctx s
  = Execute (IpfsAddCommand filePath) ctx
      (set_invoker {| command := Some (IpfsAddCommand filePath) |} s).
Proof.
  unfold isReady. intros HF Hr.
  destruct (Connector (ipfsConnector s)) as [c |] eqn:Hc; [| discriminate].
  unfold handleIpfsCommand. rewrite HF.
  unfold bind at 1. unfold index at 1. cbn [nth_error]. unfold ret at 1.
  cbn [String.eqb Ascii.eqb Bool.eqb].
  unfold bind at 1. unfold get_Connector at 1. rewrite Hc.
  unfold bind at 1. unfold index at 1. cbn [nth_error]. unfold ret at 1.
  apply Set_then_Execute.
Qed.

Lemma handleIpfsCommand_get
      (line cid outputPath : string) (rest : list string) (ctx : Context)
      (s : State) :
  Fields line = "get" :: cid :: outputPath :: rest ->
  isReady s = true ->
  handleIpfsCommand line ctx s
  = Execute (IpfsGetCommand cid outputPath) ctx
      (set_invoker {| command := Some (IpfsGetCommand cid outputPath) |} s).
Proof.
  unfold isReady. intros HF Hr.
  destruct (Connector (ipfsConnector s)) as [c |] eqn:Hc; [| discriminate].
  unfold handleIpfsCommand. rewrite HF.
  unfold bind at 1. unfold index at 1. cbn [nth_error]. unfold ret at 1.
  cbn [String.eqb Ascii.eqb Bool.eqb].
  unfold bind at 1. unfold get_Connector at 1. rewrite Hc.
  unfold bind at 1. unfold index at 1. cbn [nth_error]. unfold ret at 1.
  unfold bind at 1. unfold index at 1. cbn [nth_error]. unfold ret at 1.
  apply Set_then_Execute.
Qed.

(** Whatever the line, the dispatcher leaves the connector object as it
    was, unless the line is a [config] with an argument that succeeded. *)
Lemma handleIpfsCommand_connector_frame
      (line : string) (ctx : Context) (s : State) :
  ipfsConnector (state_of (handleIpfsCommand line ctx s)) <> ipfsConnector s ->
  exists repository rest s',
    Fields line = "config" :: repository :: rest
    /\ handleIpfsCommand line ctx s = Returned None s'.
Proof.
  intros H.
  destruct (Fields line) as [| verb rest] eqn:HF.
  { exfalso. apply H. rewrite (handleIpfsCommand_no_field line ctx s HF).
    reflexivity. }
  destruct (String.eqb_spec verb "config") as [-> | Hc].
  { destruct rest as [| repository rest].
    - exfalso. apply H.
      rewrite (handleIpfsCommand_config_alone line ctx s HF). reflexivity.
    - exists repository, rest.
      rewrite (handleIpfsCommand_config line repository rest ctx s HF) in *.
      simpl Execute in *. rewrite IpfsConfigCommand_Execute_eq in *.
      cbn [set_invoker global] in *.
      destruct (ipfs.CreateNode ctx repository (global s)) as [[c [e |]] g].
      + exfalso. apply H. reflexivity.
      + eexists. split; reflexivity. }
  exfalso. apply H. clear H.
  destruct (isReady s) eqn:Hr.
  - destruct (String.eqb_spec verb "add") as [-> | Ha].
    { destruct rest as [| filePath rest].
      - rewrite (proj1 (add_get_without_argument_panic line ctx s Hr) HF).
        reflexivity.
      - rewrite (handleIpfsCommand_add line filePath rest ctx s HF Hr).
        rewrite Execute_add_get_frame; [reflexivity | intros r; discriminate]. }
    destruct (String.eqb_spec verb "get") as [-> | Hg].
    { destruct rest as [| cid [| outputPath rest]].
      - rewrite (proj1 (proj2 (add_get_without_argument_panic line ctx s Hr)) HF).
        reflexivity.
      - rewrite (proj2 (proj2 (add_get_without_argument_panic line ctx s Hr))
                       cid HF).
        reflexivity.
      - rewrite (handleIpfsCommand_get line cid outputPath rest ctx s HF Hr).
        rewrite Execute_add_get_frame; [reflexivity | intros r; discriminate]. }
    rewrite (handleIpfsCommand_unrecognized line verb rest ctx s HF Hc Ha Hg).
    reflexivity.
  - destruct (String.eqb_spec verb "add") as [-> | Ha].
    { rewrite (handleIpfsCommand_not_configured line "add" rest ctx s HF);
        [reflexivity | left; reflexivity |].
      unfold isReady in Hr.
      destruct (Connector (ipfsConnector s)); [discriminate | reflexivity]. }
    destruct (String.eqb_spec verb "get") as [-> | Hg].
    { rewrite (handleIpfsCommand_not_configured line "get" rest ctx s HF);
        [reflexivity | right; reflexivity |].
      unfold isReady in Hr.
      destruct (Connector (ipfsConnector s)); [discriminate | reflexivity]. }
    rewrite (handleIpfsCommand_unrecognized line verb rest ctx s HF Hc Ha Hg).
    reflexivity.
Qed.

(** C6: when node creation fails, [IpfsConfigCommand.Execute] returns the
    very error it was given and changes neither the connector nor the
    invoker; when it succeeds the connector it was given is stored; an
    [Execute] after which the connector object differs is a [config] that
    succeeded, and so is a line after which it differs. *)
Theorem config_failure_is_propagated
        (repository : string) (ctx : Context) (s : State) :
  (forall c e g,
      ipfs.CreateNode ctx repository (global s) = ((c, Some e), g) ->
      Execute (IpfsConfigCommand repository) ctx s
      = Returned (Some e) (set_global g s))
  /\ (forall c g,
         ipfs.CreateNode ctx repository (global s) = ((c, None), g) ->
         Execute (IpfsConfigCommand repository) ctx s
         = Returned None
             (set_ipfsConnector {| Connector := c |} (set_global g s)))
  /\ (forall cmd r s',
         Execute cmd ctx s = Returned r s' ->
         ipfsConnector s' <> ipfsConnector s ->
         r = None /\ exists repository', cmd = IpfsConfigCommand repository')
  /\ (forall line,
         ipfsConnector (state_of (handleIpfsCommand line ctx s))
         <> ipfsConnector s ->
         exists repository' rest s',
           Fields line = "config" :: repository' :: rest
           /\ handleIpfsCommand line ctx s = Returned None s').
Proof.
  split; [| split; [| split]];
    [| | | intros line; apply handleIpfsCommand_connector_frame].
  - intros c e g H. simpl. rewrite IpfsConfigCommand_Execute_eq, H. reflexivity.
  - intros c g H. simpl. rewrite IpfsConfigCommand_Execute_eq, H. reflexivity.
  - intros cmd r s' H Hne.
    destruct cmd as [repository' | filePath | cid outputPath].
    + split; [| exists repository'; reflexivity].
      simpl in H. rewrite IpfsConfigCommand_Execute_eq in H.
      destruct (ipfs.CreateNode ctx repository' (global s)) as [[c [e |]] g].
      * injection H as _ <-. exfalso. apply Hne. reflexivity.
      * injection H as <- _. reflexivity.
    + exfalso. apply Hne.
      pose proof (Execute_add_get_frame (IpfsAddCommand filePath) ctx s) as F.
      rewrite H in F. apply F. intros r0; discriminate.
    + exfalso. apply Hne.
      pose proof (Execute_add_get_frame (IpfsGetCommand cid outputPath) ctx s) as F.
      rewrite H in F. apply F. intros r0; discriminate.
Qed.

(** ** From not ready to ready *)

Lemma iteration_connector (line : string) (ctx : Context) (s : State) :
  ipfsConnector (state_of (iteration line ctx s)) = ipfsConnector s
  \/ ipfsConnector (state_of (iteration line ctx s))
     = ipfsConnector (state_of (handleIpfsCommand line ctx (prompted s))).
Proof.
  rewrite iteration_prompt. unfold dispatch.
  destruct (String.eqb line "help"); [left; reflexivity |].
  destruct (String.eqb line "exit"); [left; reflexivity |].
  right. unfold bind.
  destruct (handleIpfsCommand line ctx (prompted s)) as [[e |] s' | p s' | z s'];
    reflexivity.
Qed.

(** A turn that starts with the connector unset and ends with it set is a
    [config] line that succeeded. *)
Lemma iteration_ready_by_config (line : string) (ctx : Context) (s : State) :
  isReady s = false ->
  isReady (state_of (iteration line ctx s)) = true ->
  exists repository rest s',
    Fields line = "config" :: repository :: rest
    /\ handleIpfsCommand line ctx (prompted s) = Returned None s'.
Proof.
  intros Hn Hr. apply handleIpfsCommand_connector_frame.
  unfold isReady in Hn, Hr. intros Heq.
  destruct (iteration_connector line ctx s) as [H | H].
  - rewrite H in Hr. rewrite Hn in Hr. discriminate.
  - rewrite H, Heq in Hr. cbn [prompted printed set_global ipfsConnector] in Hr.
    rewrite Hn in Hr. discriminate.
Qed.

(** The shell that is ready after some lines, and was not before them, has
    been given a [config] line that succeeded: until then it is not ready. *)
Lemma ready_only_after_config (lines : list string) (ctx : Context) (s : State) :
  isReady s = false ->
  isReady (state_of (turns lines ctx s)) = true ->
  exists before line after s1 repository rest s2,
    lines = (before ++ line :: after)%list
    /\ turns before ctx s = Returned tt s1
    /\ isReady s1 = false
    /\ Fields line = "config" :: repository :: rest
    /\ handleIpfsCommand line ctx (prompted s1) = Returned None s2.
Proof.
  revert s. induction lines as [| line lines IH]; intros s Hn Hr.
  - simpl in Hr. rewrite Hn in Hr. discriminate.
  - destruct (isReady (state_of (iteration line ctx s))) eqn:Hstep.
    + destruct (iteration_ready_by_config line ctx s Hn Hstep)
        as (repository & rest & s2 & HF & Hh).
      exists [], line, lines, s, repository, rest, s2.
      repeat split; assumption.
    + simpl in Hr. unfold bind in Hr.
      destruct (iteration line ctx s) as [[] s1 | p s1 | z s1] eqn:Hit;
        simpl in Hstep.
      * destruct (IH s1 Hstep Hr)
          as (before & l & after & s1' & repository & rest & s2
              & -> & Ht & Hn' & HF & Hh).
        exists (line :: before), l, after, s1', repository, rest, s2.
        repeat split; try assumption.
        simpl. unfold bind. rewrite Hit. exact Ht.
      * simpl in Hr. rewrite Hstep in Hr. discriminate.
      * simpl in Hr. rewrite Hstep in Hr. discriminate.
Qed.

(** ** The plugin flag along the loop *)

Lemma preserves_lift_done {A} (m : ipfs.M A) :
  keeps_done m ->
  preserves (fun s => ipfs.loadPluginsOnce (global s) = true) (lift m).
Proof.
  intros Hm s H. rewrite lift_Returned. simpl. exact (Hm (global s) H).
Qed.

Lemma Execute_keeps_done (c : Command) (ctx : Context) :
  preserves (fun s => ipfs.loadPluginsOnce (global s) = true) (Execute c ctx).
Proof.
  destruct c as [repository | filePath | cid outputPath]; simpl.
  - unfold IpfsConfigCommand_Execute. apply preserves_bind.
    + apply preserves_lift_done, keeps_done_CreateNode.
    + intros [connector [e |]]; [apply preserves_ret |].
      apply preserves_bind; [| intros _; apply preserves_ret].
      intros s H. exact H.
  - unfold IpfsAddCommand_Execute. apply preserves_bind.
    + apply preserves_get_Connector.
    + intros [c |]; [| apply preserves_ret].
      apply preserves_lift_done, keeps_done_AddFile.
  - unfold IpfsGetCommand_Execute. apply preserves_bind.
    + apply preserves_get_Connector.
    + intros [c |]; [| apply preserves_ret].
      apply preserves_lift_done, keeps_done_GetFile.
Qed.

Lemma turns_keep_done (lines : list string) (ctx : Context) (s : State) :
  ipfs.loadPluginsOnce (global s) = true ->
  ipfs.loadPluginsOnce (global (state_of (turns lines ctx s))) = true.
Proof.
  intros H.
  apply (preserves_turns (fun s => ipfs.loadPluginsOnce (global s) = true));
    try exact H.
  - intros o s0 H0. exact H0.
  - intros i s0 H0. exact H0.
  - exact Execute_keeps_done.
Qed.

Lemma CreateNode_setup_fails
      (ctx : Context) (repository : string) (g : ipfs.Global) (e : error) :
  ipfs.loadPluginsOnce g = false ->
  fst (ipfs.loadAndInjectPlugins EmptyString g) = Some e ->
  ipfs.CreateNode ctx repository g
  = ((None, Some e), ipfs.set_done (snd (ipfs.loadAndInjectPlugins EmptyString g))).
Proof.
  intros Hd He. unfold ipfs.CreateNode. unfold ipfs.bind at 1.
  rewrite (setupPlugins_first g Hd), He. reflexivity.
Qed.

(** C10: when the plugins fail to load in the first call of [CreateNode],
    that call returns the error; in every state the shell goes through
    afterwards, whatever lines it is given, [setupPlugins] returns [nil] and
    leaves everything as it is: the load is not tried again, although it
    never succeeded. *)
Theorem setup_error_reported_once
        (ctx : Context) (repository : string) (g : ipfs.Global) (e : error) :
  ipfs.loadPluginsOnce g = false ->
  fst (ipfs.loadAndInjectPlugins EmptyString g) = Some e ->
  fst (ipfs.CreateNode ctx repository g) = (None, Some e)
  /\ forall (s : State) (lines : list string) (ctx' : Context),
       global s = snd (ipfs.CreateNode ctx repository g) ->
       ipfs.setupPlugins (global (state_of (turns lines ctx' s)))
       = (None, global (state_of (turns lines ctx' s))).
Proof.
  intros Hd He.
  rewrite (CreateNode_setup_fails ctx repository g e Hd He).
  split; [reflexivity |].
  intros s lines ctx' Hs.
  apply setupPlugins_done, turns_keep_done.
  rewrite Hs. reflexivity.
Qed.

(** ** Retrieval *)

(** C3, as the code behaves: [GetFile] does with an identifier whose
    decoding fails exactly what it does with one that decodes, without
    error, to the same value; the error of [cid.Decode] reaches neither the
    result nor the terminal, and the engine's get is called all the same. *)
Theorem GetFile_drops_decode_error
        (c : ipfs.Connector) (ctx : Context) (bad good outputPath : string)
        (cidFile : Cid) (e : error) (g : ipfs.Global) :
  cid_Decode bad = (cidFile, Some e) ->
  cid_Decode good = (cidFile, None) ->
  ipfs.GetFile c ctx bad outputPath g = ipfs.GetFile c ctx good outputPath g.
Proof.
  intros Hb Hg. unfold ipfs.GetFile. rewrite Hb, Hg. reflexivity.
Qed.

(** What [GetFile] returns when the decoding fails and the engine's get
    fails too: the error of the get. *)
Lemma GetFile_decode_error_then_get_error
      (c : ipfs.Connector) (ctx : Context) (contentId outputPath : string)
      (cidFile : Cid) (e e' : error) (file : files_Node) (w : World)
      (g : ipfs.Global) :
  cid_Decode contentId = (cidFile, Some e) ->
  Unixfs_Get (ipfs.Api c) ctx (path_FromCid cidFile) (ipfs.world g)
  = ((file, Some e'), w) ->
  ipfs.GetFile c ctx contentId outputPath g = (Some e', ipfs.set_world w g).
Proof.
  intros Hd Hget. unfold ipfs.GetFile. rewrite Hd.
  unfold ipfs.bind, ipfs.call. rewrite Hget. reflexivity.
Qed.

End Properties.

(** ** The process as a whole *)

(** A first line [config] without argument ends the process in a panic,
    whatever the engine and whatever follows. *)
Lemma main_config_alone_panics {E : Engine} (rest : list string) (w : World) :
  main ("config" :: rest) w
  = Panicked (IndexOutOfRange 1 1) (prompted (initial w)).
Proof.
  unfold main. simpl loop. unfold bind.
  rewrite (iteration_config_alone "config" _ _ eq_refl). reflexivity.
Qed.

(** So does an empty first line, and so does the end of the input. *)
Lemma main_empty_line_panics {E : Engine} (rest : list string) (w : World) :
  main (EmptyString :: rest) w = Panicked (IndexOutOfRange 0 0) (prompted (initial w)).
Proof.
  unfold main. simpl loop. unfold bind.
  rewrite iteration_blank_panics. reflexivity.
Qed.

Lemma main_end_of_input_panics {E : Engine} (w : World) :
  main [] w = Panicked (IndexOutOfRange 0 0) (prompted (initial w)).
Proof.
  unfold main. simpl loop. apply iteration_blank_panics.
Qed.

(** * The shell on the simulated engine *)

Section Runs.

#[local] Existing Instance Sim.engine.

(** the two scenarios of the specification *)
Example scenario_config_add_get_exit :
  match main ["config /tmp/repo"; "add ./file.txt";
              "get bafy1 /tmp/out.txt"; "exit"] Sim.disk with
  | Exited code s =>
      code = 0%Z
      /\ ipfs.stdout (global s)
         = [Plain "goshare> ";
            Plain "goshare> ";
            Coloured Green ("Added file with Cid: bafy1" ++ newline);
            Plain "goshare> ";
            Coloured Green ("Successfully Wrote file to /tmp/out.txt" ++ newline);
            Plain "goshare> ";
            Plain ("Exiting the app. Goodbye!" ++ newline)]
      /\ Sim.lookup "/tmp/out.txt" (Sim.files (ipfs.world (global s)))
         = Some "hello"
  | _ => False
  end.
Proof.
  vm_compute. repeat split.
Qed.

Example scenario_add_before_config :
  match main ["add ./file.txt"; "exit"] Sim.disk with
  | Exited code s =>
      code = 0%Z
      /\ ipfs.stdout (global s)
         = [Plain "goshare> ";
            Coloured Red ("run config command first" ++ newline);
            Plain "goshare> ";
            Plain ("Exiting the app. Goodbye!" ++ newline)]
      /\ isReady s = false
  | _ => False
  end.
Proof.
  vm_compute. repeat split.
Qed.

Lemma ExecuteCommand_no_command_witness :
  ExecuteCommand Sim.ctx (initial Sim.disk)
  = Returned (Some "command not set") (initial Sim.disk).
Proof.
  apply (ExecuteCommand_no_command Sim.ctx (initial Sim.disk)). reflexivity.
Defined.

Lemma unrecognized_verb_witness :
  iteration "frob x" Sim.ctx Sim.configured
  = Returned tt
      (printed (Plain ("invalid command: frob x" ++ newline))
               (prompted Sim.configured)).
Proof.
  refine (proj1 (proj2 (unrecognized_verb_is_reported
                          "frob x" "frob" ["x"] Sim.ctx Sim.configured
                          _ _ _ _ _ _)));
    [reflexivity | discriminate ..].
Defined.

Lemma add_get_before_config_witness :
  handleIpfsCommand "get" Sim.ctx (initial Sim.disk)
  = Returned (Some "run config command first") (initial Sim.disk).
Proof.
  refine (proj1 (add_get_before_config "get" "get" [] Sim.ctx (initial Sim.disk)
                                       _ _ _));
    [reflexivity | right; reflexivity | reflexivity].
Defined.

Lemma blank_line_witness :
  iteration "   " Sim.ctx Sim.configured
  = Panicked (IndexOutOfRange 0 0) (prompted Sim.configured).
Proof.
  apply (blank_line_panics "   " Sim.ctx Sim.configured). reflexivity.
Defined.

Lemma config_without_argument_witness :
  iteration "config" Sim.ctx (initial Sim.disk)
  = Panicked (IndexOutOfRange 1 1) (prompted (initial Sim.disk)).
Proof.
  apply (proj2 (config_without_argument_panics
                  "config" Sim.ctx (initial Sim.disk) eq_refl)).
Defined.

Lemma ready_is_permanent_witness :
  isReady Sim.configured = true
  /\ isReady (state_of (turns ["config /r"; "add nothing"; "get nope /o";
                               "frob"; "config"; "help"] Sim.ctx Sim.configured))
     = true.
Proof.
  split.
  - apply (proj1 (ready_is_permanent Sim.ctx (initial Sim.disk))
                 "config /r" "/r" [] Sim.configured);
      [reflexivity | vm_compute; reflexivity].
  - apply (proj2 (ready_is_permanent Sim.ctx Sim.configured)).
    vm_compute. reflexivity.
Defined.

Lemma config_failure_witness :
  Execute (IpfsConfigCommand "/r") Sim.ctx (initial Sim.broken_disk)
  = Returned (Some "error loading plugins: plugin directory unreadable")
             (set_global
                (ipfs.set_done (global (initial Sim.broken_disk)))
                (initial Sim.broken_disk)).
Proof.
  apply (proj1 (config_failure_is_propagated "/r" Sim.ctx (initial Sim.broken_disk))
               None).
  vm_compute. reflexivity.
Defined.

Lemma setup_error_witness :
  fst (ipfs.CreateNode Sim.ctx "/r" (global (initial Sim.broken_disk)))
  = (None, Some "error loading plugins: plugin directory unreadable").
Proof.
  apply (setup_error_reported_once
           Sim.ctx "/r" (global (initial Sim.broken_disk))
           "error loading plugins: plugin directory unreadable");
    reflexivity.
Defined.

Lemma GetFile_drops_decode_error_witness :
  ipfs.GetFile Sim.connector
               Sim.ctx "not-a-cid" "/o" (global Sim.configured)
  = ipfs.GetFile Sim.connector
                 Sim.ctx "bafy0" "/o" (global Sim.configured).
Proof.
  apply (GetFile_drops_decode_error Sim.connector Sim.ctx "not-a-cid" "bafy0" "/o"
                                    0 "invalid cid" (global Sim.configured));
    reflexivity.
Defined.

(** On this engine the user of [get not-a-cid /o] is told that the block
    was not found; the message of the decoder, "invalid cid", is lost. *)
Example get_undecodable_cid :
  iteration "get not-a-cid /o" Sim.ctx Sim.configured
  = Returned tt
      (printed (Coloured Red ("block not found" ++ newline))
         (set_invoker {| command := Some (IpfsGetCommand "not-a-cid" "/o") |}
            (prompted Sim.configured)))
  /\ cid_Decode "not-a-cid" = (0, Some "invalid cid").
Proof.
  split; vm_compute; reflexivity.
Qed.

(** The plugins fail to load for the first [config]; the second one
    succeeds without them. *)
Example config_after_failed_setup :
  match turns ["config /r"; "config /r"] Sim.ctx (initial Sim.broken_disk) with
  | Returned _ s =>
      ipfs.stdout (global s)
      = [Plain "goshare> ";
         Coloured Red
           ("error loading plugins: plugin directory unreadable" ++ newline);
         Plain "goshare> "]
      /\ isReady s = true
  | _ => False
  end.
Proof.
  vm_compute. split; reflexivity.
Qed.

End Runs.

(** * Further properties of the two packages *)

(** ** Lines made of words *)

Lemma string_app_assoc (a b c : string) : (a ++ b) ++ c = a ++ (b ++ c).
Proof.
  induction a as [| x a IH]; simpl; [reflexivity | rewrite IH; reflexivity].
Qed.

Lemma string_app_empty (a : string) : a ++ EmptyString = a.
Proof.
  induction a as [| x a IH]; simpl; [reflexivity | rewrite IH; reflexivity].
Qed.

Lemma all_bytes_app (p : ascii -> bool) (a b : string) :
  all_bytes p (a ++ b) = (all_bytes p a && all_bytes p b)%bool.
Proof.
  induction a as [| x a IH]; simpl; [reflexivity |].
  rewrite IH. apply andb_assoc.
Qed.

Lemma all_bytes_weaken (p q : ascii -> bool) (a : string) :
  (forall b, p b = true -> q b = true) ->
  all_bytes p a = true -> all_bytes q a = true.
Proof.
  intros Hpq. induction a as [| x a IH]; simpl; [reflexivity |].
  intros H. apply andb_true_iff in H. destruct H as [Hx Ha].
  rewrite (Hpq x Hx). exact (IH Ha).
Qed.

Lemma is_word_inv (a : string) :
  is_word a = true -> is_empty a = false /\ all_bytes word_byte a = true.
Proof.
  unfold is_word. intros H. apply andb_true_iff in H. destruct H as [He Ha].
  split; [destruct (is_empty a); [discriminate | reflexivity] | exact Ha].
Qed.

Lemma word_is_ascii (a : string) :
  all_bytes word_byte a = true ->
  all_bytes (fun b => N.ltb (byte_of b) RuneSelf) a = true.
Proof.
  apply all_bytes_weaken. intros b H. unfold word_byte in H.
  apply andb_true_iff in H. exact (proj1 H).
Qed.

(** the fast path goes through a word without closing the field *)
Lemma fieldsASCII_word (a rest cur : string) :
  all_bytes word_byte a = true ->
  fieldsASCII (a ++ rest) cur = fieldsASCII rest (cur ++ a).
Proof.
  revert cur. induction a as [| x a IH]; intros cur H; simpl.
  - rewrite string_app_empty. reflexivity.
  - simpl in H. apply andb_true_iff in H. destruct H as [Hx Ha].
    unfold word_byte in Hx. apply andb_true_iff in Hx. destruct Hx as [_ Hx].
    apply negb_true_iff in Hx. rewrite Hx.
    rewrite (IH _ Ha), string_app_assoc. reflexivity.
Qed.

Lemma fieldsASCII_last_word (a : string) :
  is_word a = true -> fieldsASCII a EmptyString = [a].
Proof.
  intros H. destruct (is_word_inv a H) as [He Ha].
  rewrite <- (string_app_empty a) at 1.
  rewrite (fieldsASCII_word a EmptyString EmptyString Ha). simpl.
  unfold emit. rewrite He. reflexivity.
Qed.

Lemma fieldsASCII_word_space (a rest : string) :
  is_word a = true ->
  fieldsASCII (a ++ String " "%char rest) EmptyString
  = a :: fieldsASCII rest EmptyString.
Proof.
  intros H. destruct (is_word_inv a H) as [He Ha].
  rewrite (fieldsASCII_word a _ EmptyString Ha). simpl.
  unfold emit. rewrite He. reflexivity.
Qed.

(** A verb and one argument separated by a space are the two fields of
    the line. *)
Lemma Fields_verb_arg (verb arg : string) :
  is_word verb = true -> is_word arg = true ->
  Fields (verb ++ " " ++ arg) = [verb; arg].
Proof.
  intros Hv Ha. unfold Fields.
  destruct (is_word_inv verb Hv) as [_ Hvb].
  destruct (is_word_inv arg Ha) as [_ Hab].
  rewrite all_bytes_app. rewrite (word_is_ascii verb Hvb). simpl.
  rewrite (word_is_ascii arg Hab). simpl.
  rewrite (fieldsASCII_word_space verb arg Hv).
  rewrite (fieldsASCII_last_word arg Ha). reflexivity.
Qed.

Lemma Fields_verb_arg_arg (verb arg1 arg2 : string) :
  is_word verb = true -> is_word arg1 = true -> is_word arg2 = true ->
  Fields (verb ++ " " ++ arg1 ++ " " ++ arg2) = [verb; arg1; arg2].
Proof.
  intros Hv H1 H2. unfold Fields.
  destruct (is_word_inv verb Hv) as [_ Hvb].
  destruct (is_word_inv arg1 H1) as [_ H1b].
  destruct (is_word_inv arg2 H2) as [_ H2b].
  rewrite all_bytes_app. rewrite (word_is_ascii verb Hvb). simpl.
  rewrite all_bytes_app. rewrite (word_is_ascii arg1 H1b). simpl.
  rewrite (word_is_ascii arg2 H2b). simpl.
  rewrite (fieldsASCII_word_space verb _ Hv).
  rewrite (fieldsASCII_word_space arg1 arg2 H1).
  rewrite (fieldsASCII_last_word arg2 H2). reflexivity.
Qed.

Section MoreProperties.
Context {E : Engine}.

Notation "x <- m ;; k" := (bind m (fun x => k))
  (at level 61, m at next level, right associativity).
Notation "m ;;; k" := (bind m (fun _ => k))
  (at level 61, right associativity).

(** case analysis on every call whose result the goal inspects, innermost
    first *)
Ltac cases_of_calls :=
  repeat match goal with
         | |- context [match ?x with _ => _ end] =>
             lazymatch x with
             | fst _ => fail
             | snd _ => fail
             | context [match _ with _ => _ end] => fail
             | _ => destruct x; simpl
             end
         end.

(** ** Package ipfs *)

Lemma CreateNode_RepoPath
      (ctx : Context) (repository : string) (g : ipfs.Global)
      (c : ipfs.Connector) :
  fst (fst (ipfs.CreateNode ctx repository g)) = Some c ->
  ipfs.RepoPath c = repository.
Proof.
  unfold ipfs.CreateNode, ipfs.bind, ipfs.ret.
  cases_of_calls; simpl; intros H; try discriminate.
  injection H as <-. reflexivity.
Qed.

(** X1: [CreateNode] returns a connector exactly when it returns no error,
    and the connector it returns records the repository path it was
    called with. *)
Theorem CreateNode_connector_iff_no_error
        (ctx : Context) (repository : string) (g : ipfs.Global) :
  (snd (fst (ipfs.CreateNode ctx repository g)) = None
   <-> fst (fst (ipfs.CreateNode ctx repository g)) <> None)
  /\ (forall c,
         fst (fst (ipfs.CreateNode ctx repository g)) = Some c ->
         ipfs.RepoPath c = repository).
Proof.
  split.
  - pose proof (CreateNode_result ctx repository g) as H.
    destruct (fst (ipfs.CreateNode ctx repository g)) as [[c |] [e |]];
      simpl in *; try contradiction.
    + split; [intros _; discriminate | reflexivity].
    + split; [discriminate | intros F; exfalso; apply F; reflexivity].
  - intros c. apply CreateNode_RepoPath.
Qed.


(** X3: when [os.Mkdir] fails, [initRepository] stops with the error behind
    "failed to create/get repo dir: " unless the error says that the
    directory exists; in that case it goes on exactly as it does from a
    directory it has just created. *)
Theorem initRepository_mkdir_error
        (repository : string) (g : ipfs.Global) (e : error) (w : World) :
  os_Mkdir repository 511%N (ipfs.world g) = (Some e, w) ->
  (os_IsExist e = false ->
   ipfs.initRepository repository g
   = (Some ("failed to create/get repo dir: " ++ e), ipfs.set_world w g))
  /\ (os_IsExist e = true ->
      forall g2,
        os_Mkdir repository 511%N (ipfs.world g2) = (None, w) ->
        ipfs.stdout g2 = ipfs.stdout g ->
        ipfs.loadPluginsOnce g2 = ipfs.loadPluginsOnce g ->
        ipfs.initRepository repository g = ipfs.initRepository repository g2).
Proof.
  intros Hm. split.
  - intros Hx. unfold ipfs.initRepository. unfold ipfs.bind at 1.
    unfold ipfs.call at 1. rewrite Hm, Hx. reflexivity.
  - intros Hx g2 Hm2 Hout Hdone. unfold ipfs.initRepository.
    unfold ipfs.bind at 1. unfold ipfs.call at 1. rewrite Hm, Hx.
    unfold ipfs.bind at 3. unfold ipfs.call at 3. rewrite Hm2.
    unfold ipfs.set_world. rewrite Hout, Hdone. reflexivity.
Qed.


(** X5: [GetFile] writes to the terminal exactly when it succeeds, and then
    one green line "Successfully Wrote file to " followed by the output
    path and a newline; an error it returns is, unwrapped, the error of the
    engine's get or the error of the write. *)
Theorem GetFile_reports_on_success_only
        (c : ipfs.Connector) (ctx : Context) (contentId outputPath : string)
        (g : ipfs.Global) :
  match fst (ipfs.GetFile c ctx contentId outputPath g) with
  | None =>
      ipfs.stdout (snd (ipfs.GetFile c ctx contentId outputPath g))
      = (ipfs.stdout g
         ++ [Coloured Green
               ("Successfully Wrote file to " ++ outputPath ++ newline)])%list
  | Some e =>
      ipfs.stdout (snd (ipfs.GetFile c ctx contentId outputPath g))
      = ipfs.stdout g
      /\ ((exists file w,
              Unixfs_Get (ipfs.Api c) ctx
                         (path_FromCid (fst (cid_Decode contentId)))
                         (ipfs.world g)
              = ((file, Some e), w))
          \/ (exists file w1 w2,
                 Unixfs_Get (ipfs.Api c) ctx
                            (path_FromCid (fst (cid_Decode contentId)))
                            (ipfs.world g)
                 = ((file, None), w1)
                 /\ files_WriteTo file outputPath w1 = (Some e, w2)))
  end.
Proof.
  unfold ipfs.GetFile.
  destruct (cid_Decode contentId) as [cidFile derr]. simpl fst.
  unfold ipfs.bind, ipfs.ret, ipfs.call, ipfs.color_Green. cbv beta.
  destruct (Unixfs_Get (ipfs.Api c) ctx (path_FromCid cidFile) (ipfs.world g))
    as [[file [e |]] w1] eqn:HG; simpl.
  - split; [reflexivity |]. left. exists file, w1. reflexivity.
  - destruct (files_WriteTo file outputPath w1) as [[e |] w2] eqn:HW; simpl.
    + split; [reflexivity |]. right. exists file, w1, w2.
      split; [reflexivity | exact HW].
    + reflexivity.
Qed.

(** ** The dispatcher, case by case *)

(** What [handleIpfsCommand] can do with a line: panic on the index, refuse
    because the connector is not set, report an invalid command, or run the
    command it has just given to the invoker. *)
Lemma handleIpfsCommand_cases (line : string) (ctx : Context) (s : State) :
  (exists p, handleIpfsCommand line ctx s = Panicked p s)
  \/ (isReady s = false
      /\ handleIpfsCommand line ctx s
         = Returned (Some "run config command first") s)
  \/ (hd_error (Fields line) <> Some "config"
      /\ handleIpfsCommand line ctx s
         = Returned None
             (printed (Plain ("invalid command: " ++ line ++ newline)) s))
  \/ (exists repository rest,
         Fields line = "config" :: repository :: rest
         /\ handleIpfsCommand line ctx s
            = Execute (IpfsConfigCommand repository) ctx
                (set_invoker
                   {| command := Some (IpfsConfigCommand repository) |} s))
  \/ (isReady s = true
      /\ exists cmd,
          (forall repository, cmd <> IpfsConfigCommand repository)
          /\ handleIpfsCommand line ctx s
             = Execute cmd ctx (set_invoker {| command := Some cmd |} s)).
Proof.
  destruct (Fields line) as [| verb rest] eqn:HF.
  { left. eexists. exact (handleIpfsCommand_no_field line ctx s HF). }
  destruct (String.eqb_spec verb "config") as [-> | Hc].
  { destruct rest as [| repository rest].
    - left. eexists. exact (handleIpfsCommand_config_alone line ctx s HF).
    - right. right. right. left. exists repository, rest.
      split; [reflexivity |].
      exact (handleIpfsCommand_config line repository rest ctx s HF). }
  destruct (String.eqb_spec verb "add") as [-> | Ha].
  { destruct (isReady s) eqn:Hr.
    - destruct rest as [| filePath rest].
      + left. eexists.
        exact (proj1 (add_get_without_argument_panic line ctx s Hr) HF).
      + right. right. right. right. split; [reflexivity |].
        exists (IpfsAddCommand filePath). split; [intros r; discriminate |].
        exact (handleIpfsCommand_add line filePath rest ctx s HF Hr).
    - right. left. split; [reflexivity |].
      apply (handleIpfsCommand_not_configured line "add" rest ctx s HF);
        [left; reflexivity |].
      unfold isReady in Hr.
      destruct (Connector (ipfsConnector s)); [discriminate | reflexivity]. }
  destruct (String.eqb_spec verb "get") as [-> | Hg].
  { destruct (isReady s) eqn:Hr.
    - destruct rest as [| cid [| outputPath rest]].
      + left. eexists.
        exact (proj1 (proj2 (add_get_without_argument_panic line ctx s Hr)) HF).
      + left. eexists.
        exact (proj2 (proj2 (add_get_without_argument_panic line ctx s Hr))
                     cid HF).
      + right. right. right. right. split; [reflexivity |].
        exists (IpfsGetCommand cid outputPath).
        split; [intros r; discriminate |].
        exact (handleIpfsCommand_get line cid outputPath rest ctx s HF Hr).
    - right. left. split; [reflexivity |].
      apply (handleIpfsCommand_not_configured line "get" rest ctx s HF);
        [right; reflexivity |].
      unfold isReady in Hr.
      destruct (Connector (ipfsConnector s)); [discriminate | reflexivity]. }
  right. right. left. split.
  - simpl. intros H. injection H as H. contradiction.
  - exact (handleIpfsCommand_unrecognized line verb rest ctx s HF Hc Ha Hg).
Qed.

Lemma handleIpfsCommand_no_exit
      (line : string) (ctx : Context) (s : State) (code : Z) (s' : State) :
  handleIpfsCommand line ctx s <> Exited code s'.
Proof.
  destruct (handleIpfsCommand_cases line ctx s)
    as [[p H] | [[_ H] | [[_ H] | [(r & rest & _ & H) | (_ & cmd & _ & H)]]]];
    rewrite H; try discriminate.
  - destruct (Execute_returns (IpfsConfigCommand r) ctx
                (set_invoker {| command := Some (IpfsConfigCommand r) |} s))
      as (x & s1 & Hx & _).
    rewrite Hx. discriminate.
  - destruct (Execute_returns cmd ctx
                (set_invoker {| command := Some cmd |} s))
      as (x & s1 & Hx & _).
    rewrite Hx. discriminate.
Qed.

(** ** How the process ends *)

Lemma iteration_exits_on_exit_only
      (line : string) (ctx : Context) (s : State) (code : Z) (s' : State) :
  iteration line ctx s = Exited code s' -> line = "exit" /\ code = 0%Z.
Proof.
  rewrite iteration_prompt. unfold dispatch.
  destruct (String.eqb line "help"); [intros H; discriminate |].
  destruct (String.eqb_spec line "exit") as [-> | Hne].
  - intros H. injection H as <- _. split; reflexivity.
  - unfold bind.
    destruct (handleIpfsCommand line ctx (prompted s))
      as [[e |] s1 | p s1 | z s1] eqn:Hh; try (intros H; discriminate).
    exfalso. exact (handleIpfsCommand_no_exit line ctx _ z s1 Hh).
Qed.

Lemma loop_ends_by_exit_or_panic
      (stdin : list string) (ctx : Context) (s : State) :
  match loop stdin ctx s with
  | Returned _ _ => False
  | Panicked _ _ => True
  | Exited code _ => code = 0%Z /\ In "exit" stdin
  end.
Proof.
  revert s. induction stdin as [| line rest IH]; intros s.
  - simpl loop. rewrite iteration_blank_panics. exact I.
  - simpl loop. unfold bind.
    destruct (iteration line ctx s) as [[] s1 | p s1 | z s1] eqn:Hit.
    + specialize (IH s1). destruct (loop rest ctx s1); try exact IH.
      destruct IH as [Hc Hin]. split; [exact Hc | right; exact Hin].
    + exact I.
    + destruct (iteration_exits_on_exit_only line ctx s z s1 Hit) as [-> ->].
      split; [reflexivity | left; reflexivity].
Qed.

(** X6: [main] never returns.  On any input the process ends either in a
    panic or by [os.Exit] with status 0, and the latter only when one of
    the lines is exactly [exit]: an input that ends without it (a closed
    pipe, end of file) ends the process in a panic. *)
Theorem main_ends_by_exit_or_panic (stdin : list string) (w : World) :
  match main stdin w with
  | Returned _ _ => False
  | Panicked _ _ => True
  | Exited code _ => code = 0%Z /\ In "exit" stdin
  end.
Proof.
  unfold main. apply loop_ends_by_exit_or_panic.
Qed.

Lemma iteration_exit (ctx : Context) (s : State) :
  iteration "exit" ctx s
  = Exited 0 (printed (Plain ("Exiting the app. Goodbye!" ++ newline))
                      (prompted s)).
Proof.
  reflexivity.
Qed.

(** X7: once the lines before it have been handled without a panic, the
    line [exit] prints the farewell and ends the process with status 0;
    nothing that follows it in the input is read. *)
Theorem exit_ends_the_process
        (before rest : list string) (ctx : Context) (s s1 : State) :
  turns before ctx s = Returned tt s1 ->
  loop (before ++ "exit" :: rest)%list ctx s
  = Exited 0 (printed (Plain ("Exiting the app. Goodbye!" ++ newline))
                      (prompted s1)).
Proof.
  revert s. induction before as [| line before IH]; intros s H.
  - simpl in H. injection H as <-.
    simpl app. simpl loop. unfold bind. rewrite iteration_exit. reflexivity.
  - simpl in H. simpl app. simpl loop. unfold bind in *.
    destruct (iteration line ctx s) as [[] s0 | p s0 | z s0];
      try discriminate.
    exact (IH s0 H).
Qed.

(** ** Directives and verbs *)

Lemma iteration_unrecognized
      (line verb : string) (rest : list string) (ctx : Context) (s : State) :
  Fields line = verb :: rest ->
  verb <> "config" -> verb <> "add" -> verb <> "get" ->
  line <> "help" -> line <> "exit" ->
  iteration line ctx s
  = Returned tt
      (printed (Plain ("invalid command: " ++ line ++ newline)) (prompted s)).
Proof.
  intros HF Hc Ha Hg Hh He.
  rewrite iteration_prompt, (dispatch_other line ctx (prompted s) Hh He).
  unfold bind at 1.
  rewrite (handleIpfsCommand_unrecognized line verb rest ctx _ HF Hc Ha Hg).
  reflexivity.
Qed.

(** X8: [help] and [exit] are recognized only when they are the whole
    line.  A line whose single field is [help] or [exit] but that carries
    white space around it is reported as an invalid command: no help is
    printed and the process does not exit. *)
Theorem directive_needs_the_whole_line
        (line verb : string) (ctx : Context) (s : State) :
  Fields line = [verb] ->
  verb = "help" \/ verb = "exit" ->
  line <> verb ->
  iteration line ctx s
  = Returned tt
      (printed (Plain ("invalid command: " ++ line ++ newline)) (prompted s)).
Proof.
  intros HF Hv Hne.
  assert (Hh : line <> "help").
  { intros ->. destruct Hv as [-> | ->]; [exact (Hne eq_refl) |].
    vm_compute in HF. discriminate. }
  assert (He : line <> "exit").
  { intros ->. destruct Hv as [-> | ->]; [| exact (Hne eq_refl)].
    vm_compute in HF. discriminate. }
  apply (iteration_unrecognized line verb [] ctx s HF);
    try assumption; destruct Hv as [-> | ->]; discriminate.
Qed.

(** X9: the dispatcher reads a fixed number of fields and nothing else of
    the line: two [config] lines with the same first argument, two [add]
    lines with the same first argument, two [get] lines with the same first
    two arguments do the same thing, whatever follows the arguments and
    however the fields are spaced. *)
Theorem extra_arguments_are_ignored
        (line1 line2 : string) (ctx : Context) (s : State) :
  (forall a rest1 rest2,
      Fields line1 = "config" :: a :: rest1 ->
      Fields line2 = "config" :: a :: rest2 ->
      handleIpfsCommand line1 ctx s = handleIpfsCommand line2 ctx s)
  /\ (forall a rest1 rest2,
         Fields line1 = "add" :: a :: rest1 ->
         Fields line2 = "add" :: a :: rest2 ->
         handleIpfsCommand line1 ctx s = handleIpfsCommand line2 ctx s)
  /\ (forall a b rest1 rest2,
         Fields line1 = "get" :: a :: b :: rest1 ->
         Fields line2 = "get" :: a :: b :: rest2 ->
         handleIpfsCommand line1 ctx s = handleIpfsCommand line2 ctx s).
Proof.
  split; [| split].
  - intros a rest1 rest2 H1 H2.
    rewrite (handleIpfsCommand_config line1 a rest1 ctx s H1).
    rewrite (handleIpfsCommand_config line2 a rest2 ctx s H2). reflexivity.
  - intros a rest1 rest2 H1 H2. destruct (isReady s) eqn:Hr.
    + rewrite (handleIpfsCommand_add line1 a rest1 ctx s H1 Hr).
      rewrite (handleIpfsCommand_add line2 a rest2 ctx s H2 Hr). reflexivity.
    + assert (Hn : Connector (ipfsConnector s) = None).
      { unfold isReady in Hr.
        destruct (Connector (ipfsConnector s)); [discriminate | reflexivity]. }
      rewrite (handleIpfsCommand_not_configured line1 "add" _ ctx s H1
                 (or_introl eq_refl) Hn).
      rewrite (handleIpfsCommand_not_configured line2 "add" _ ctx s H2
                 (or_introl eq_refl) Hn).
      reflexivity.
  - intros a b rest1 rest2 H1 H2. destruct (isReady s) eqn:Hr.
    + rewrite (handleIpfsCommand_get line1 a b rest1 ctx s H1 Hr).
      rewrite (handleIpfsCommand_get line2 a b rest2 ctx s H2 Hr). reflexivity.
    + assert (Hn : Connector (ipfsConnector s) = None).
      { unfold isReady in Hr.
        destruct (Connector (ipfsConnector s)); [discriminate | reflexivity]. }
      rewrite (handleIpfsCommand_not_configured line1 "get" _ ctx s H1
                 (or_intror eq_refl) Hn).
      rewrite (handleIpfsCommand_not_configured line2 "get" _ ctx s H2
                 (or_intror eq_refl) Hn).
      reflexivity.
Qed.

(** ** Well-formed lines *)

(** X10: for every repository path that is one word, the line made of
    [config], a space and the path calls [CreateNode] on exactly that path:
    the error of the call is the result, or the connector it gave is
    stored; either way the invoker is left holding the command. *)
Theorem config_line_runs_CreateNode
        (repository : string) (ctx : Context) (s : State) :
  is_word repository = true ->
  handleIpfsCommand ("config " ++ repository) ctx s
  = match ipfs.CreateNode ctx repository (global s) with
    | ((_, Some e), g) =>
        Returned (Some e)
          (set_invoker {| command := Some (IpfsConfigCommand repository) |}
             (set_global g s))
    | ((connector, None), g) =>
        Returned None
          (set_ipfsConnector {| Connector := connector |}
             (set_invoker {| command := Some (IpfsConfigCommand repository) |}
                (set_global g s)))
    end.
Proof.
  intros Hw.
  change ("config " ++ repository) with ("config" ++ " " ++ repository).
  rewrite (handleIpfsCommand_config _ repository [] ctx s
             (Fields_verb_arg "config" repository eq_refl Hw)).
  simpl Execute. rewrite IpfsConfigCommand_Execute_eq. cbn [set_invoker global].
  destruct (ipfs.CreateNode ctx repository (global s)) as [[c [e |]] g];
    reflexivity.
Qed.

(** X11: with a connector set, the line made of [add], a space and a path
    of one word is [AddFile] of that connector on that path, and the line
    made of [get], an identifier and an output path, one word each, is
    [GetFile] on them; the result of the call is the result of the line, and
    the connector is the one of before. *)
Theorem add_get_lines_call_the_connector
        (c : ipfs.Connector) (ctx : Context) (s : State) :
  Connector (ipfsConnector s) = Some c ->
  (forall filePath,
      is_word filePath = true ->
      handleIpfsCommand ("add " ++ filePath) ctx s
      = Returned (fst (ipfs.AddFile c ctx filePath (global s)))
          (set_invoker {| command := Some (IpfsAddCommand filePath) |}
             (set_global (snd (ipfs.AddFile c ctx filePath (global s))) s)))
  /\ (forall cid outputPath,
         is_word cid = true -> is_word outputPath = true ->
         handleIpfsCommand ("get " ++ cid ++ " " ++ outputPath) ctx s
         = Returned (fst (ipfs.GetFile c ctx cid outputPath (global s)))
             (set_invoker
                {| command := Some (IpfsGetCommand cid outputPath) |}
                (set_global
                   (snd (ipfs.GetFile c ctx cid outputPath (global s))) s))).
Proof.
  intros Hc.
  assert (Hr : isReady s = true) by (unfold isReady; rewrite Hc; reflexivity).
  split.
  - intros filePath Hw.
    change ("add " ++ filePath) with ("add" ++ " " ++ filePath).
    rewrite (handleIpfsCommand_add _ filePath [] ctx s
               (Fields_verb_arg "add" filePath eq_refl Hw) Hr).
    simpl Execute. unfold IpfsAddCommand_Execute, bind, get_Connector.
    cbn [set_invoker ipfsConnector]. rewrite Hc.
    rewrite lift_Returned. reflexivity.
  - intros cid outputPath H1 H2.
    change ("get " ++ cid ++ " " ++ outputPath)
      with ("get" ++ " " ++ cid ++ " " ++ outputPath).
    rewrite (handleIpfsCommand_get _ cid outputPath [] ctx s
               (Fields_verb_arg_arg "get" cid outputPath eq_refl H1 H2) Hr).
    simpl Execute. unfold IpfsGetCommand_Execute, bind, get_Connector.
    cbn [set_invoker ipfsConnector]. rewrite Hc.
    rewrite lift_Returned. reflexivity.
Qed.

(** ** The pending command *)

Lemma handleIpfsCommand_keeps_pending (line : string) (ctx : Context) :
  preserves (fun s => command (invoker s) <> None)
            (handleIpfsCommand line ctx).
Proof.
  intros s H.
  destruct (handleIpfsCommand_cases line ctx s)
    as [[p Hh] | [[_ Hh] | [[_ Hh] | [(r & rest & _ & Hh) | (_ & cmd & _ & Hh)]]]];
    rewrite Hh; simpl; try exact H.
  - destruct (Execute_returns (IpfsConfigCommand r) ctx
                (set_invoker {| command := Some (IpfsConfigCommand r) |} s))
      as (x & s1 & Hx & Hi).
    simpl in Hx. rewrite Hx. simpl. rewrite Hi. discriminate.
  - destruct (Execute_returns cmd ctx
                (set_invoker {| command := Some cmd |} s))
      as (x & s1 & Hx & Hi).
    rewrite Hx. simpl. rewrite Hi. discriminate.
Qed.

Lemma iteration_keeps_pending (line : string) (ctx : Context) :
  preserves (fun s => command (invoker s) <> None) (iteration line ctx).
Proof.
  assert (Hp : forall o s, command (invoker s) <> None ->
                           command (invoker (printed o s)) <> None).
  { intros o s H. exact H. }
  unfold iteration, dispatch.
  apply preserves_bind; [apply preserves_fmt_Print; exact Hp | intros _].
  destruct (String.eqb line "help").
  { repeat (apply preserves_bind;
            [apply preserves_fmt_Println; exact Hp | intros _]).
    apply preserves_fmt_Println; exact Hp. }
  destruct (String.eqb line "exit").
  { apply preserves_bind;
      [apply preserves_fmt_Println; exact Hp | intros _].
    apply preserves_os_Exit. }
  apply preserves_bind; [apply handleIpfsCommand_keeps_pending |].
  intros [e |]; [apply preserves_color_Red; exact Hp | apply preserves_ret].
Qed.

(** X12: the invoker is never emptied.  A [config] line with an argument
    leaves it holding that command whether the command failed or not, and
    from a state where it holds a command it holds one after any further
    lines: [ExecuteCommand] would run the last command again rather than
    answer "command not set". *)
Theorem pending_command_is_kept (ctx : Context) (s : State) :
  (forall line repository rest,
      Fields line = "config" :: repository :: rest ->
      command (invoker (state_of (handleIpfsCommand line ctx s)))
      = Some (IpfsConfigCommand repository))
  /\ (command (invoker s) <> None ->
      forall lines,
        command (invoker (state_of (turns lines ctx s))) <> None).
Proof.
  split.
  - intros line repository rest HF.
    rewrite (handleIpfsCommand_config line repository rest ctx s HF).
    destruct (Execute_returns (IpfsConfigCommand repository) ctx
                (set_invoker
                   {| command := Some (IpfsConfigCommand repository) |} s))
      as (x & s1 & Hx & Hi).
    rewrite Hx. simpl. rewrite Hi. reflexivity.
  - intros H lines. revert s H.
    induction lines as [| line lines IH]; intros s H; simpl.
    + exact H.
    + unfold bind.
      pose proof (iteration_keeps_pending line ctx s H) as Hit.
      destruct (iteration line ctx s) as [[] s1 | p s1 | z s1]; simpl in Hit.
      * exact (IH s1 Hit).
      * exact Hit.
      * exact Hit.
Qed.

(** ** Configuration, line by line *)

(** X13: a [config] line with an argument never panics.  When it succeeds
    the connector now stored is one for the repository named on the line,
    replacing any earlier one; when it fails the connector object is the
    one of before, so that a shell that was ready stays usable. *)
Theorem config_line_outcome
        (line repository : string) (rest : list string)
        (ctx : Context) (s : State) :
  Fields line = "config" :: repository :: rest ->
  match handleIpfsCommand line ctx s with
  | Returned None s' =>
      exists c, Connector (ipfsConnector s') = Some c
                /\ ipfs.RepoPath c = repository
  | Returned (Some _) s' => ipfsConnector s' = ipfsConnector s
  | _ => False
  end.
Proof.
  intros HF.
  rewrite (handleIpfsCommand_config line repository rest ctx s HF).
  simpl Execute. rewrite IpfsConfigCommand_Execute_eq. cbn [set_invoker global].
  pose proof (CreateNode_result ctx repository (global s)) as Hr.
  pose proof (CreateNode_RepoPath ctx repository (global s)) as Hp.
  destruct (ipfs.CreateNode ctx repository (global s)) as [[[c |] [e |]] g];
    simpl in Hr, Hp; try contradiction.
  - exists c. split; [reflexivity | apply Hp; reflexivity].
  - reflexivity.
Qed.

(** ** What does not reach the engine *)

(** X14: while the connector is not set, only a line whose first field is
    [config] reaches the engine.  Any other line, whether it is a
    directive, an [add] or a [get], an unknown verb or a blank line, and
    however its turn ends, leaves the outside world and the plugin flag as
    they were. *)
Theorem engine_untouched_before_config
        (line : string) (ctx : Context) (s : State) :
  isReady s = false ->
  hd_error (Fields line) <> Some "config" ->
  ipfs.world (global (state_of (iteration line ctx s))) = ipfs.world (global s)
  /\ ipfs.loadPluginsOnce (global (state_of (iteration line ctx s)))
     = ipfs.loadPluginsOnce (global s).
Proof.
  intros Hn Hv. rewrite iteration_prompt. unfold dispatch.
  destruct (String.eqb line "help"); [split; reflexivity |].
  destruct (String.eqb line "exit"); [split; reflexivity |].
  unfold bind.
  destruct (handleIpfsCommand_cases line ctx (prompted s))
    as [[p Hh] | [[_ Hh] | [[_ Hh] | [(r & rest & HF & _) | (Hr & _)]]]].
  - rewrite Hh. split; reflexivity.
  - rewrite Hh. split; reflexivity.
  - rewrite Hh. split; reflexivity.
  - exfalso. apply Hv. rewrite HF. reflexivity.
  - unfold isReady in Hr, Hn. simpl in Hr. rewrite Hr in Hn. discriminate.
Qed.

(** ** Where the shell can panic *)

(** X15: the dispatcher panics only for want of a field it indexes.  When
    it panics the state is untouched, the line has at most two fields, and
    the panic is the index out of range at the number of fields; a line
    with three fields or more never makes it panic. *)
Theorem panic_only_on_missing_field
        (line : string) (ctx : Context) (s : State) :
  (forall p s',
      handleIpfsCommand line ctx s = Panicked p s' ->
      s' = s
      /\ p = IndexOutOfRange (length (Fields line)) (length (Fields line))
      /\ length (Fields line) <= 2)
  /\ (3 <= length (Fields line) ->
      exists r s', handleIpfsCommand line ctx s = Returned r s').
Proof.
  assert (Hex : forall cmd s0,
             handleIpfsCommand line ctx s = Execute cmd ctx s0 ->
             (forall p s', handleIpfsCommand line ctx s <> Panicked p s')
             /\ exists r s', handleIpfsCommand line ctx s = Returned r s').
  { intros cmd s0 H. destruct (Execute_returns cmd ctx s0) as (r & s1 & Hx & _).
    rewrite H, Hx. split; [intros p s'; discriminate |].
    exists r, s1. reflexivity. }
  destruct (Fields line) as [| verb rest] eqn:HF.
  { split; [| simpl; lia].
    intros p s'. rewrite (handleIpfsCommand_no_field line ctx s HF).
    intros H. injection H as <- <-. repeat split. simpl. lia. }
  destruct (String.eqb_spec verb "config") as [-> | Hc].
  { destruct rest as [| repository rest].
    - split; [| simpl; lia].
      intros p s'. rewrite (handleIpfsCommand_config_alone line ctx s HF).
      intros H. injection H as <- <-. repeat split. simpl. lia.
    - destruct (Hex _ _ (handleIpfsCommand_config line repository rest ctx s HF))
        as [Hnp Hr].
      split; [intros p s' H; exfalso; exact (Hnp p s' H) | intros _; exact Hr]. }
  destruct (isReady s) eqn:Hr.
  - destruct (String.eqb_spec verb "add") as [-> | Ha].
    { destruct rest as [| filePath rest].
      - split; [| simpl; lia].
        intros p s'.
        rewrite (proj1 (add_get_without_argument_panic line ctx s Hr) HF).
        intros H. injection H as <- <-. repeat split. simpl. lia.
      - destruct (Hex _ _ (handleIpfsCommand_add line filePath rest ctx s HF Hr))
          as [Hnp Hret].
        split; [intros p s' H; exfalso; exact (Hnp p s' H)
               | intros _; exact Hret]. }
    destruct (String.eqb_spec verb "get") as [-> | Hg].
    { destruct rest as [| cid [| outputPath rest]].
      - split; [| simpl; lia].
        intros p s'.
        rewrite (proj1 (proj2 (add_get_without_argument_panic line ctx s Hr)) HF).
        intros H. injection H as <- <-. repeat split. simpl. lia.
      - split; [| simpl; lia].
        intros p s'.
        rewrite (proj2 (proj2 (add_get_without_argument_panic line ctx s Hr))
                       cid HF).
        intros H. injection H as <- <-. repeat split. simpl. lia.
      - destruct (Hex _ _ (handleIpfsCommand_get line cid outputPath rest
                                                 ctx s HF Hr))
          as [Hnp Hret].
        split; [intros p s' H; exfalso; exact (Hnp p s' H)
               | intros _; exact Hret]. }
    rewrite (handleIpfsCommand_unrecognized line verb rest ctx s HF Hc Ha Hg).
    split; [intros p s' H; discriminate | intros _; eexists; eexists; reflexivity].
  - assert (Hn : Connector (ipfsConnector s) = None).
    { unfold isReady in Hr.
      destruct (Connector (ipfsConnector s)); [discriminate | reflexivity]. }
    destruct (String.eqb_spec verb "add") as [-> | Ha].
    { rewrite (handleIpfsCommand_not_configured line "add" rest ctx s HF
                 (or_introl eq_refl) Hn).
      split; [intros p s' H; discriminate
             | intros _; eexists; eexists; reflexivity]. }
    destruct (String.eqb_spec verb "get") as [-> | Hg].
    { rewrite (handleIpfsCommand_not_configured line "get" rest ctx s HF
                 (or_intror eq_refl) Hn).
      split; [intros p s' H; discriminate
             | intros _; eexists; eexists; reflexivity]. }
    rewrite (handleIpfsCommand_unrecognized line verb rest ctx s HF Hc Ha Hg).
    split; [intros p s' H; discriminate | intros _; eexists; eexists; reflexivity].
Qed.

End MoreProperties.

(** * The further properties on the simulated engine *)

Section MoreRuns.

#[local] Existing Instance Sim.engine.

Lemma CreateNode_connector_witness :
  ipfs.RepoPath Sim.connector = "/r".
Proof.
  apply (proj2 (CreateNode_connector_iff_no_error
                  Sim.ctx "/r" (global (initial Sim.disk)))).
  vm_compute. reflexivity.
Defined.


Lemma initRepository_existing_witness :
  ipfs.initRepository "/r" (global Sim.configured)
  = ipfs.initRepository "/r"
      {| ipfs.world := Sim.disk; ipfs.stdout := [];
         ipfs.loadPluginsOnce := true |}.
Proof.
  apply (proj2 (initRepository_mkdir_error
                  "/r" (global Sim.configured) "file exists"
                  (ipfs.world (global Sim.configured)) eq_refl));
    reflexivity.
Defined.

Lemma exit_ends_the_process_witness :
  loop ["add ./file.txt"; "frob"; "exit"; "config /r"] Sim.ctx
       (initial Sim.disk)
  = Exited 0
      (printed (Plain ("Exiting the app. Goodbye!" ++ newline))
         (prompted
            (state_of (turns ["add ./file.txt"; "frob"] Sim.ctx
                             (initial Sim.disk))))).
Proof.
  apply (exit_ends_the_process ["add ./file.txt"; "frob"] ["config /r"]
                               Sim.ctx (initial Sim.disk)).
  vm_compute. reflexivity.
Defined.

Lemma directive_needs_the_whole_line_witness :
  iteration "exit " Sim.ctx (initial Sim.disk)
  = Returned tt
      (printed (Plain ("invalid command: exit " ++ newline))
               (prompted (initial Sim.disk))).
Proof.
  apply (directive_needs_the_whole_line "exit " "exit" Sim.ctx
                                        (initial Sim.disk));
    [reflexivity | right; reflexivity | discriminate].
Defined.

Lemma extra_arguments_witness :
  handleIpfsCommand "config /r" Sim.ctx (initial Sim.disk)
  = handleIpfsCommand "  config   /r  and more" Sim.ctx (initial Sim.disk).
Proof.
  apply (proj1 (extra_arguments_are_ignored
                  "config /r" "  config   /r  and more" Sim.ctx
                  (initial Sim.disk))
               "/r" [] ["and"; "more"]);
    reflexivity.
Defined.

Lemma config_line_witness :
  handleIpfsCommand "config /tmp/repo" Sim.ctx (initial Sim.disk)
  = match ipfs.CreateNode Sim.ctx "/tmp/repo" (global (initial Sim.disk)) with
    | ((_, Some e), g) =>
        Returned (Some e)
          (set_invoker {| command := Some (IpfsConfigCommand "/tmp/repo") |}
             (set_global g (initial Sim.disk)))
    | ((connector, None), g) =>
        Returned None
          (set_ipfsConnector {| Connector := connector |}
             (set_invoker {| command := Some (IpfsConfigCommand "/tmp/repo") |}
                (set_global g (initial Sim.disk))))
    end.
Proof.
  apply (config_line_runs_CreateNode "/tmp/repo" Sim.ctx (initial Sim.disk)).
  reflexivity.
Defined.

Lemma add_line_witness :
  handleIpfsCommand "add ./file.txt" Sim.ctx Sim.configured
  = Returned
      (fst (ipfs.AddFile Sim.connector Sim.ctx "./file.txt"
                         (global Sim.configured)))
      (set_invoker {| command := Some (IpfsAddCommand "./file.txt") |}
         (set_global
            (snd (ipfs.AddFile Sim.connector Sim.ctx "./file.txt"
                               (global Sim.configured)))
            Sim.configured)).
Proof.
  apply (proj1 (add_get_lines_call_the_connector
                  Sim.connector Sim.ctx Sim.configured eq_refl)).
  reflexivity.
Defined.

Lemma pending_command_witness :
  command (invoker Sim.configured) = Some (IpfsConfigCommand "/r")
  /\ command (invoker (state_of (turns ["help"; "frob"; "get"] Sim.ctx
                                       Sim.configured)))
     <> None.
Proof.
  split.
  - apply (proj1 (pending_command_is_kept Sim.ctx (initial Sim.disk))
                 "config /r" "/r" []).
    reflexivity.
  - apply (proj2 (pending_command_is_kept Sim.ctx Sim.configured)).
    vm_compute. discriminate.
Defined.

Lemma config_line_outcome_witness :
  match handleIpfsCommand "config /r" Sim.ctx (initial Sim.broken_disk) with
  | Returned None s' =>
      exists c, Connector (ipfsConnector s') = Some c /\ ipfs.RepoPath c = "/r"
  | Returned (Some _) s' =>
      ipfsConnector s' = ipfsConnector (initial Sim.broken_disk)
  | _ => False
  end.
Proof.
  apply (config_line_outcome "config /r" "/r" [] Sim.ctx
                             (initial Sim.broken_disk)).
  reflexivity.
Defined.

Lemma engine_untouched_witness :
  ipfs.world (global (state_of (iteration "add ./file.txt" Sim.ctx
                                          (initial Sim.disk))))
  = ipfs.world (global (initial Sim.disk))
  /\ ipfs.loadPluginsOnce
       (global (state_of (iteration "add ./file.txt" Sim.ctx
                                    (initial Sim.disk))))
     = ipfs.loadPluginsOnce (global (initial Sim.disk)).
Proof.
  apply (engine_untouched_before_config "add ./file.txt" Sim.ctx
                                        (initial Sim.disk)).
  - reflexivity.
  - vm_compute. discriminate.
Defined.

Lemma panic_only_on_missing_field_witness :
  exists r s',
    handleIpfsCommand "get bafy1 /o and more" Sim.ctx Sim.configured
    = Returned r s'.
Proof.
  apply (proj2 (panic_only_on_missing_field
                  "get bafy1 /o and more" Sim.ctx Sim.configured)).
  vm_compute. lia.
Defined.

End MoreRuns.
